(** * HLV abilities: Lightning payment, Lightning invoice and Hedera HTLC

    A shallow embedding of the three Vincent abilities of the repository
    (their [precheck] and [execute] bodies, the zod parameter schema of the
    payment ability, the NWC connection manager and the [verifyPreimage]
    helper), followed by the properties proved about them.

    Conventions.
    - A JavaScript string is a [string]; its characters stand for code units.
    - A JavaScript integer-valued number is a [Z].
    - Everything a body obtains from outside (invoice decoder, wallet, JSON-RPC
      provider, clock, URL parser) is a field of a [World] record, so that a
      body is a function of its parameters and of the world.
    - A body runs in the monad [M]: it threads a state (the log of external
      calls, and the connection manager where there is one) and ends with a
      value, with a thrown exception, or never ([Pending], an awaited promise
      that does not settle). *)

From Stdlib Require Import ZArith String Ascii List Bool Lia DecimalString.
Import ListNotations.

Local Open Scope string_scope.
Local Open Scope list_scope.
Local Open Scope Z_scope.

(** ** JavaScript values and strings *)

Module Js.

(** What a [catch] clause receives: an [Error] carrying a message, or some
    other thrown value ([error instanceof Error] is false). *)
Inductive Exn : Type :=
| ErrorObj (message : string)
| NonError.

(** [error instanceof Error ? error.message : fallback] *)
Definition message_or (fallback : string) (e : Exn) : string :=
  match e with
  | ErrorObj m => m
  | NonError => fallback
  end.

(** How an awaited computation ends. *)
Inductive Res (A : Type) : Type :=
| Ret (a : A)
| Throw (e : Exn)
| Pending.
Arguments Ret {A} a.
Arguments Throw {A} e.
Arguments Pending {A}.

(** State and exception monad of the ability bodies. *)
Definition M (S A : Type) : Type := S -> Res A * S.

Definition ret {S A} (a : A) : M S A := fun s => (Ret a, s).

Definition bind {S A B} (m : M S A) (k : A -> M S B) : M S B :=
  fun s =>
    match m s with
    | (Ret a, s') => k a s'
    | (Throw e, s') => (Throw e, s')
    | (Pending, s') => (Pending, s')
    end.

Definition throw {S A} (e : Exn) : M S A := fun s => (Throw e, s).

(** [throw new Error(msg)] *)
Definition throw_error {S A} (msg : string) : M S A := throw (ErrorObj msg).

(** [try { m } catch (error) { h error }]; a computation that never settles
    is not caught. *)
Definition try_catch {S A} (m : M S A) (h : Exn -> M S A) : M S A :=
  fun s =>
    match m s with
    | (Throw e, s') => h e s'
    | r => r
    end.

Definition get {S} : M S S := fun s => (Ret s, s).
Definition modify {S} (f : S -> S) : M S unit := fun s => (Ret tt, f s).

(** Result of an external computation handed to the body. *)
Definition lift {S A} (r : Res A) : M S A := fun s => (r, s).

(** [x || 0], [x || ''] on optional values: [undefined], [0] and [''] are
    falsy. *)
Definition or_zero (o : option Z) : Z :=
  match o with Some z => z | None => 0 end.

Definition or_empty (o : option string) : string :=
  match o with Some s => s | None => "" end.

(** Truthiness of a string ([''] is falsy) and of an optional string. *)
Definition truthy_string (s : string) : bool :=
  negb (String.eqb s "").

Definition truthy_opt_string (o : option string) : bool :=
  match o with Some s => truthy_string s | None => false end.

(** Truthiness of a number. *)
Definition truthy_num (z : Z) : bool := negb (z =? 0).

(** [a || b] on optional strings. *)
Definition or_string (a b : option string) : option string :=
  if truthy_opt_string a then a else b.

(** Template interpolation of an integer-valued number of magnitude below
    1e21 (decimal digits, a leading minus sign; from 1e21 on a number is
    printed in exponent form, which this function does not model), and
    [toString()] of a [BigNumber]. *)
Definition num_to_string (z : Z) : string :=
  NilZero.string_of_int (Z.to_int z).

(** [s.startsWith(p)] *)
Definition startsWith (s p : string) : bool := String.prefix p s.

(** [s.includes(c)] for a one-character needle. *)
Fixpoint includes_char (s : string) (c : ascii) : bool :=
  match s with
  | EmptyString => false
  | String a r => Ascii.eqb a c || includes_char r c
  end.

(** [s.replace(pat, '')]: the first occurrence of [pat] is removed. *)
Fixpoint remove_first (pat s : string) : string :=
  if String.prefix pat s then
    String.substring (String.length pat) (String.length s - String.length pat) s
  else
    match s with
    | EmptyString => EmptyString
    | String a r => String a (remove_first pat r)
    end.

(** Character classes of the regular expressions in the sources. *)
Definition in_range (lo hi c : ascii) : bool :=
  (N.leb (N_of_ascii lo) (N_of_ascii c) && N.leb (N_of_ascii c) (N_of_ascii hi))%bool.

Definition is_digit (c : ascii) : bool := in_range "0" "9" c.
Definition is_lower (c : ascii) : bool := in_range "a" "z" c.
Definition is_upper (c : ascii) : bool := in_range "A" "Z" c.

(** [[0-9a-f]] under the [i] flag, and [[a-fA-F0-9]]: the same class. *)
Definition is_hex (c : ascii) : bool :=
  is_digit c || in_range "a" "f" c || in_range "A" "F" c.

(** [[0-9a-z]] under the [i] flag. *)
Definition is_alnum_ci (c : ascii) : bool :=
  is_digit c || is_lower c || is_upper c.

(** [cls{n}] at the head of [s]: the rest of the input after exactly [n]
    characters of the class, if they are there. *)
Fixpoint match_repeat (cls : ascii -> bool) (n : nat) (s : string) : option string :=
  match n with
  | O => Some s
  | S n' =>
      match s with
      | String c r => if cls c then match_repeat cls n' r else None
      | EmptyString => None
      end
  end.

(** [cls+$]: one or more characters of the class up to the end of input. *)
Fixpoint all_chars (cls : ascii -> bool) (s : string) : bool :=
  match s with
  | EmptyString => true
  | String c r => cls c && all_chars cls r
  end.

Definition match_plus_end (cls : ascii -> bool) (s : string) : bool :=
  match s with
  | EmptyString => false
  | _ => all_chars cls s
  end.

(** [$] *)
Definition at_end (o : option string) : bool :=
  match o with
  | Some EmptyString => true
  | _ => false
  end.

(** [/^[0-9a-f]{64}$/i.test(s)] *)
Definition hex64_test (s : string) : bool :=
  at_end (match_repeat is_hex 64 s).

(** [/^0x[a-fA-F0-9]{64}$/] *)
Definition bytes32_test (s : string) : bool :=
  match s with
  | String "0" (String "x" r) => at_end (match_repeat is_hex 64 r)
  | _ => false
  end.

(** Lower-casing of an ASCII letter, for literals matched under [i]. *)
Definition to_lower (c : ascii) : ascii :=
  if is_upper c then ascii_of_N (N_of_ascii c + 32) else c.

(** A literal matched case-insensitively at the head of [s]. *)
Fixpoint strip_prefix_ci (lit s : string) : option string :=
  match lit with
  | EmptyString => Some s
  | String l lit' =>
      match s with
      | String c r =>
          if Ascii.eqb (to_lower c) (to_lower l) then strip_prefix_ci lit' r else None
      | EmptyString => None
      end
  end.

(** The ability boundary: a body ends by [succeed(data)] or [fail(payload)]. *)
Inductive Outcome (D F : Type) : Type :=
| Succeed (data : D)
| Fail (payload : F).
Arguments Succeed {D F} data.
Arguments Fail {D F} payload.

End Js.

Declare Scope js_scope.
Delimit Scope js_scope with js.
Notation "x <- m ;; k" := (Js.bind m (fun x => k))
  (at level 100, m at next level, right associativity) : js_scope.
Notation "m ;;; k" := (Js.bind m (fun _ => k))
  (at level 100, right associativity) : js_scope.

(** ** SHA-256 (FIPS 180-4) on 32-bit words

    The digest that the sources name in [crypto.createHash('sha256')]. *)

Module SHA256.

Definition mask32 : Z := 4294967295.
Definition w32 (x : Z) : Z := Z.land x mask32.
Definition add32 (x y : Z) : Z := w32 (x + y).
Definition rotr (n x : Z) : Z :=
  w32 (Z.lor (Z.shiftr x n) (Z.shiftl x (32 - n))).
Definition shr (n x : Z) : Z := Z.shiftr x n.
Definition not32 (x : Z) : Z := Z.lxor x mask32.

Definition Ch (x y z : Z) : Z := Z.lxor (Z.land x y) (Z.land (not32 x) z).
Definition Maj (x y z : Z) : Z :=
  Z.lxor (Z.lxor (Z.land x y) (Z.land x z)) (Z.land y z).
Definition Sigma0 (x : Z) : Z := Z.lxor (Z.lxor (rotr 2 x) (rotr 13 x)) (rotr 22 x).
Definition Sigma1 (x : Z) : Z := Z.lxor (Z.lxor (rotr 6 x) (rotr 11 x)) (rotr 25 x).
Definition sigma0 (x : Z) : Z := Z.lxor (Z.lxor (rotr 7 x) (rotr 18 x)) (shr 3 x).
Definition sigma1 (x : Z) : Z := Z.lxor (Z.lxor (rotr 17 x) (rotr 19 x)) (shr 10 x).

(** Hexadecimal encodings, as [Buffer.from(s, 'hex')] and [digest('hex')]. *)
Definition hex_value (c : ascii) : option Z :=
  let n := Z.of_N (N_of_ascii c) in
  if Js.is_digit c then Some (n - 48)
  else if Js.in_range "a" "f" c then Some (n - 87)
  else if Js.in_range "A" "F" c then Some (n - 55)
  else None.

(** Decoding stops at the first pair that is not two hexadecimal digits. *)
Fixpoint from_hex (s : string) : list Z :=
  match s with
  | String a (String b r) =>
      match hex_value a, hex_value b with
      | Some x, Some y => (16 * x + y) :: from_hex r
      | _, _ => []
      end
  | _ => []
  end.

Definition hex_digit (n : Z) : ascii :=
  if n <? 10 then ascii_of_N (Z.to_N (n + 48)) else ascii_of_N (Z.to_N (n + 87)).

Fixpoint to_hex (bs : list Z) : string :=
  match bs with
  | [] => EmptyString
  | b :: r => String (hex_digit (b / 16)) (String (hex_digit (b mod 16)) (to_hex r))
  end.

(** Big-endian 32-bit words of a byte list (whole words only). *)
Fixpoint words_of (fuel : nat) (bs : list Z) : list Z :=
  match fuel with
  | O => []
  | S fuel' =>
      match bs with
      | a :: b :: c :: d :: r =>
          (Z.shiftl a 24 + Z.shiftl b 16 + Z.shiftl c 8 + d) :: words_of fuel' r
      | _ => []
      end
  end.

(** The round constants and the initial hash value, written as the
    hexadecimal digits of their big-endian bytes. *)
Definition K_digits : string :=
  ("428a2f9871374491b5c0fbcfe9b5dba53956c25b59f111f1923f82a4ab1c5ed5"
   ++ "d807aa9812835b01243185be550c7dc372be5d7480deb1fe9bdc06a7c19bf174"
   ++ "e49b69c1efbe47860fc19dc6240ca1cc2de92c6f4a7484aa5cb0a9dc76f988da"
   ++ "983e5152a831c66db00327c8bf597fc7c6e00bf3d5a7914706ca635114292967"
   ++ "27b70a852e1b21384d2c6dfc53380d13650a7354766a0abb81c2c92e92722c85"
   ++ "a2bfe8a1a81a664bc24b8b70c76c51a3d192e819d6990624f40e3585106aa070"
   ++ "19a4c1161e376c082748774c34b0bcb5391c0cb34ed8aa4a5b9cca4f682e6ff3"
   ++ "748f82ee78a5636f84c878148cc7020890befffaa4506cebbef9a3f7c67178f2")%string.

Definition K : list Z := words_of 64 (from_hex K_digits).

Definition H0_digits : string :=
  "6a09e667bb67ae853c6ef372a54ff53a510e527f9b05688c1f83d9ab5be0cd19".

Definition H0 : list Z := words_of 8 (from_hex H0_digits).

(** Big-endian bytes of a number, [n] of them. *)
Fixpoint be_bytes (n : nat) (x : Z) : list Z :=
  match n with
  | O => []
  | S n' => Z.land (Z.shiftr x (8 * Z.of_nat n')) 255 :: be_bytes n' x
  end.

(** Padding: a [1] bit, zeros up to 56 modulo 64, the bit length on 64 bits. *)
Definition pad (msg : list Z) : list Z :=
  let len := Z.of_nat (List.length msg) in
  let zeros := Z.to_nat ((55 - len) mod 64) in
  msg ++ [128] ++ List.repeat 0 zeros ++ be_bytes 8 (8 * len).

Definition nth_word (w : list Z) (i : nat) : Z := List.nth i w 0.

(** Message schedule: the sixteen words of the block extended to [16 + n]. *)
Fixpoint schedule (n : nat) (w : list Z) : list Z :=
  match n with
  | O => w
  | S n' =>
      let w' := schedule n' w in
      let t := List.length w' in
      w' ++ [ add32 (add32 (sigma1 (nth_word w' (t - 2))) (nth_word w' (t - 7)))
                    (add32 (sigma0 (nth_word w' (t - 15))) (nth_word w' (t - 16))) ]
  end.

Record Regs : Type := mkRegs { ra : Z; rb : Z; rc : Z; rd : Z; re : Z; rf : Z; rg : Z; rh : Z }.

Definition round (r : Regs) (kw : Z * Z) : Regs :=
  let '(k, w) := kw in
  let t1 := add32 (add32 (add32 (rh r) (Sigma1 (re r))) (add32 (Ch (re r) (rf r) (rg r)) k)) w in
  let t2 := add32 (Sigma0 (ra r)) (Maj (ra r) (rb r) (rc r)) in
  mkRegs (add32 t1 t2) (ra r) (rb r) (rc r) (add32 (rd r) t1) (re r) (rf r) (rg r).

Definition regs_of (h : list Z) : Regs :=
  mkRegs (nth_word h 0) (nth_word h 1) (nth_word h 2) (nth_word h 3)
         (nth_word h 4) (nth_word h 5) (nth_word h 6) (nth_word h 7).

Definition compress (h : list Z) (block : list Z) : list Z :=
  let w := schedule 48 (words_of 16 block) in
  let r0 := regs_of h in
  let r := List.fold_left round (List.combine K w) r0 in
  [ add32 (ra r0) (ra r); add32 (rb r0) (rb r); add32 (rc r0) (rc r); add32 (rd r0) (rd r);
    add32 (re r0) (re r); add32 (rf r0) (rf r); add32 (rg r0) (rg r); add32 (rh r0) (rh r) ].

Fixpoint blocks (fuel : nat) (h : list Z) (bs : list Z) : list Z :=
  match fuel with
  | O => h
  | S fuel' =>
      match bs with
      | [] => h
      | _ => blocks fuel' (compress h (List.firstn 64 bs)) (List.skipn 64 bs)
      end
  end.

(** Digest of a byte list, as its 32 bytes. *)
Definition digest (msg : list Z) : list Z :=
  let p := pad msg in
  List.flat_map (be_bytes 4) (blocks (List.length p) H0 p).

Definition bytes_of_string (s : string) : list Z :=
  List.map (fun c => Z.of_N (N_of_ascii c)) (list_ascii_of_string s).

(** [createHash('sha256').update(Buffer.from(preimage, 'hex')).digest('hex')] *)
Definition sha256_hex (preimage : string) : string :=
  to_hex (digest (from_hex preimage)).

End SHA256.


(** ** The Lightning payment ability (Settlement Step and Invoice Validation) *)

Module LightningPayment.
Import Js.
Local Open Scope js_scope.

(** [KNOWN_ERRORS] of the payment schemas. *)
Inductive Reason : Type :=
| INVALID_INVOICE
| PAYMENT_FAILED
| INVOICE_EXPIRED
| AMOUNT_MISMATCH
| INSUFFICIENT_LIQUIDITY
| NO_ROUTE_FOUND.

(** *** Parameter schema *)

(** What a caller sends, before [abilityParamsSchema] is applied. *)
Record RawParams : Type := mkRawParams {
  raw_paymentRequest : string;
  raw_maxFeesat : option Z;
  raw_timeoutSeconds : option Z;
  raw_nwcUri : option string;
  raw_expectedAmountSat : option Z
}.

(** What the bodies destructure. [timeoutSeconds] stays optional here
    because [execute] tests its truthiness. *)
Record AbilityParams : Type := mkAbilityParams {
  paymentRequest : string;
  maxFeesat : option Z;
  timeoutSeconds : option Z;
  nwcUri : option string;
  expectedAmountSat : option Z
}.

(** [/^ln(bc|tb|bcrt)[0-9a-z]+$/i] *)
Definition paymentRequest_test (s : string) : bool :=
  match strip_prefix_ci "ln" s with
  | Some r =>
      List.existsb
        (fun tag =>
           match strip_prefix_ci tag r with
           | Some r' => match_plus_end is_alnum_ci r'
           | None => false
           end)
        ["bc"; "tb"; "bcrt"]
  | None => false
  end.

(** [z.number().int().positive().optional()] *)
Definition positive_optional (o : option Z) : option (option Z) :=
  match o with
  | None => Some None
  | Some z => if 0 <? z then Some (Some z) else None
  end.

(** [z.number().int().positive().default(d)] *)
Definition positive_default (d : Z) (o : option Z) : option Z :=
  match o with
  | None => Some d
  | Some z => if 0 <? z then Some z else None
  end.

(** [abilityParamsSchema.safeParse]: [None] when a field is rejected. *)
Definition abilityParamsSchema (r : RawParams) : option AbilityParams :=
  if paymentRequest_test (raw_paymentRequest r) then
    match positive_optional (raw_maxFeesat r),
          positive_default 60 (raw_timeoutSeconds r),
          positive_optional (raw_expectedAmountSat r) with
    | Some fee, Some t, Some e =>
        Some (mkAbilityParams (raw_paymentRequest r) fee (Some t) (raw_nwcUri r) e)
    | _, _, _ => None
    end
  else None.

(** *** Result payloads *)

Record PrecheckSuccess : Type := mkPrecheckSuccess {
  ps_invoiceValid : bool;
  ps_paymentHash : string;
  ps_amountSat : Z;
  ps_destination : string;
  ps_description : string;
  ps_expiresAt : Z;
  ps_availableLiquidity : option Z;
  ps_estimatedFee : option Z
}.

Record PrecheckFail : Type := mkPrecheckFail {
  pf_error : string;
  pf_reason : Reason
}.

Inductive Status : Type := SUCCEEDED.

Record ExecuteSuccess : Type := mkExecuteSuccess {
  es_preimage : string;
  es_paymentHash : string;
  es_amountSat : Z;
  es_feeSat : Z;
  es_totalSat : Z;
  es_timestamp : Z;
  es_status : Status
}.

Record ExecuteFail : Type := mkExecuteFail {
  ef_error : string;
  ef_reason : Reason;
  ef_paymentHash : option string
}.

(** *** The outside world *)

(** A decoded [Invoice] of the lightning-tools library, by the fields the
    bodies read. [inv_expiryDate] is the time value of [expiryDate] in
    milliseconds, [None] when the invoice carries no expiry date. The time
    value of a [Date] lies in the range where [toISOString] is defined, so
    the line of [precheck] that logs the decoded invoice does not throw. *)
Record Invoice : Type := mkInvoice {
  inv_paymentHash : string;
  inv_satoshi : option Z;
  inv_description : option string;
  inv_expiryDate : option Z
}.

(** Calls that leave the process. *)
Inductive Call : Type :=
| NewClient (uri : string)
| GetInfo
| GetBalance
| PayInvoice (invoice : string)
| SetTimeout (ms : Z).

Record World : Type := mkWorld {
  (** [new Invoice({ pr })]: the decoded invoice, or what it throws *)
  decode : string -> Exn + Invoice;
  (** [new nwc.NWCClient({ nostrWalletConnectUrl })]: what it throws, if anything *)
  new_client : string -> option Exn;
  (** [lnClient.getInfo()] *)
  getInfo : Res unit;
  (** [lnClient.getBalance()], by its [balance] field *)
  getBalance : Res (option Z);
  (** [lnClient.payInvoice({ invoice })], by its [preimage] field *)
  payInvoice : string -> Res (option string);
  (** time the pay operation takes to settle, when it does *)
  pay_delay_ms : Z;
  (** which callback runs first when both are due at the same instant *)
  timer_first_on_tie : bool;
  (** [Date.now()] read by [precheck] *)
  now_ms : Z;
  (** [Date.now()] read when [execute] builds its result *)
  now_result_ms : Z;
  (** [new Date(t).toISOString()] *)
  toISOString : Z -> string;
  (** [Math.ceil(amountSat * 0.001)], a double-precision product *)
  fee_estimate : Z -> Z
}.

(** *** NWCConnectionManager *)

(** The singleton: [lnClient !== null], [isConnected], and the [NWC_URI]
    environment variable read by the constructor. *)
Record Manager : Type := mkManager {
  lnClient : bool;
  isConnected : bool;
  env_nwcUri : option string
}.

Record St : Type := mkSt {
  mgr : Manager;
  calls : list Call
}.

Definition record_call (c : Call) : M St unit :=
  modify (fun s => mkSt (mgr s) (calls s ++ [c])).

Definition set_lnClient (b : bool) : M St unit :=
  modify (fun s => mkSt (mkManager b (isConnected (mgr s)) (env_nwcUri (mgr s))) (calls s)).

Definition set_isConnected (b : bool) : M St unit :=
  modify (fun s => mkSt (mkManager (lnClient (mgr s)) b (env_nwcUri (mgr s))) (calls s)).

(** [NWCConnectionManager.connect] *)
Definition connect (w : World) (nwcUri : option string) : M St unit :=
  s <- get ;;
  let uri := or_string nwcUri (env_nwcUri (mgr s)) in
  if negb (truthy_opt_string uri) then
    throw_error
      "NWC URI not provided. Set NWC_URI environment variable or provide in ability params."
  else if lnClient (mgr s) && isConnected (mgr s) then ret tt
  else
    try_catch
      (record_call (NewClient (or_empty uri)) ;;;
       match new_client w (or_empty uri) with
       | Some e => throw e
       | None =>
           set_lnClient true ;;;
           record_call GetInfo ;;;
           _ <- lift (getInfo w) ;;
           set_isConnected true
       end)
      (fun error =>
         set_isConnected false ;;;
         throw_error ("NWC connection failed: " ++ message_or "Unknown error" error)).

Definition not_connected : string := "NWC not connected. Call connect() first.".

(** [NWCConnectionManager.getBalance] *)
Definition manager_getBalance (w : World) : M St (option Z) :=
  s <- get ;;
  if negb (isConnected (mgr s)) || negb (lnClient (mgr s)) then throw_error not_connected
  else
    try_catch
      (record_call GetBalance ;;; lift (getBalance w))
      (fun error => throw error).

(** The object [{ preimage, amount }] returned by the manager. *)
Record PayResult : Type := mkPayResult {
  pr_preimage : option string;
  pr_amount : Z
}.

(** [NWCConnectionManager.payInvoice] *)
Definition manager_payInvoice (w : World) (invoice : string) : M St PayResult :=
  s <- get ;;
  if negb (isConnected (mgr s)) || negb (lnClient (mgr s)) then throw_error not_connected
  else
    try_catch
      (record_call (PayInvoice invoice) ;;;
       preimage <- lift (payInvoice w invoice) ;;
       ret (mkPayResult preimage 0))
      (fun error => throw error).

(** [Promise.race([paymentPromise, timeoutPromise])]: the payment has been
    started; the timer rejects with ['Payment timeout'] after [ms]. The
    delay is that of the wallet's answer: [execute] starts the race only
    after [connect] has succeeded, when the manager's own guard does not
    reject. *)
Definition timer_wins (w : World) (ms : Z) : bool :=
  (ms <? pay_delay_ms w) || ((ms =? pay_delay_ms w) && timer_first_on_tie w).

Definition race {A} (w : World) (ms : Z) (payment : M St A) : M St A :=
  fun s =>
    match payment s with
    | (Pending, s') => (Throw (ErrorObj "Payment timeout"), mkSt (mgr s') (calls s' ++ [SetTimeout ms]))
    | (r, s') =>
        let s'' := mkSt (mgr s') (calls s' ++ [SetTimeout ms]) in
        if timer_wins w ms then (Throw (ErrorObj "Payment timeout"), s'') else (r, s'')
    end.

(** *** precheck *)

(** [`${x}`] of a possibly undefined string. *)
Definition show_opt_string (o : option string) : string :=
  match o with Some s => s | None => "undefined" end.

(** [amountSat > availableLiquidity]; a comparison with [undefined] is false. *)
Definition gt_opt (a : Z) (o : option Z) : bool :=
  match o with Some b => b <? a | None => false end.

Definition precheck (w : World) (p : AbilityParams)
  : M St (Outcome PrecheckSuccess PrecheckFail) :=
  try_catch
    (match decode w (paymentRequest p) with
     | inl error =>
         ret (Fail (mkPrecheckFail
                      ("Failed to decode Lightning invoice: " ++ message_or "Unknown error" error)
                      INVALID_INVOICE))
     | inr invoice =>
         let paymentHash := inv_paymentHash invoice in
         let amountSat := or_zero (inv_satoshi invoice) in
         let description := or_empty (inv_description invoice) in
         let expiresAt := or_zero (inv_expiryDate invoice) in
         let now := now_ms w in
         if truthy_num expiresAt && (expiresAt <? now) then
           ret (Fail (mkPrecheckFail
                        ("Invoice expired at " ++ toISOString w expiresAt)
                        INVOICE_EXPIRED))
         else if match expectedAmountSat p with
                 | Some e => truthy_num e && negb (amountSat =? e)
                 | None => false
                 end then
           ret (Fail (mkPrecheckFail
                        ("Invoice amount (" ++ num_to_string amountSat
                           ++ " sat) does not match expected amount ("
                           ++ num_to_string (or_zero (expectedAmountSat p)) ++ " sat)")
                        AMOUNT_MISMATCH))
         else if negb (truthy_num amountSat) || (amountSat =? 0) then
           ret (Fail (mkPrecheckFail
                        "Invoice does not specify an amount. Amount-less invoices are not supported."
                        INVALID_INVOICE))
         else
           liquidity <-
             try_catch
               (connect w (nwcUri p) ;;;
                availableLiquidity <- manager_getBalance w ;;
                let estimatedFee := fee_estimate w amountSat in
                if gt_opt amountSat availableLiquidity then
                  ret (inl (mkPrecheckFail
                              ("Insufficient Lightning liquidity. Required: "
                                 ++ num_to_string amountSat ++ " sat, Available: "
                                 ++ num_to_string (or_zero availableLiquidity) ++ " sat")
                              INSUFFICIENT_LIQUIDITY))
                else ret (inr (availableLiquidity, Some estimatedFee)))
               (fun _ => ret (inr (None, Some (fee_estimate w amountSat)))) ;;
           match liquidity with
           | inl failure => ret (Fail failure)
           | inr (availableLiquidity, estimatedFee) =>
               ret (Succeed (mkPrecheckSuccess true paymentHash amountSat "unknown"
                               description expiresAt availableLiquidity estimatedFee))
           end
     end)
    (fun error =>
       ret (Fail (mkPrecheckFail
                    ("Precheck failed: " ++ message_or "Unknown error" error)
                    INVALID_INVOICE))).

(** *** execute *)

(** [new Invoice({ pr })] where a failure is thrown. *)
Definition new_Invoice (w : World) (pr : string) : M St Invoice :=
  match decode w pr with
  | inl error => throw error
  | inr invoice => ret invoice
  end.

Definition execute (w : World) (p : AbilityParams)
  : M St (Outcome ExecuteSuccess ExecuteFail) :=
  try_catch
    (invoice <- new_Invoice w (paymentRequest p) ;;
     let paymentHash := inv_paymentHash invoice in
     let expectedAmountSat := or_zero (inv_satoshi invoice) in
     connect w (nwcUri p) ;;;
     let paymentPromise := manager_payInvoice w (paymentRequest p) in
     paymentResult <-
       (if truthy_num (or_zero (timeoutSeconds p)) then
          race w (or_zero (timeoutSeconds p) * 1000) paymentPromise
        else paymentPromise) ;;
     let preimage := pr_preimage paymentResult in
     if negb (truthy_opt_string preimage)
        || negb (Nat.eqb (String.length (or_empty preimage)) 64) then
       throw_error ("Invalid preimage received: " ++ show_opt_string preimage)
     else
       let actualAmountSat :=
         if truthy_num (pr_amount paymentResult) then pr_amount paymentResult
         else expectedAmountSat in
       let feeSat :=
         if expectedAmountSat <? actualAmountSat
         then Z.max 0 (actualAmountSat - expectedAmountSat) else 0 in
       ret (Succeed (mkExecuteSuccess (or_empty preimage) paymentHash expectedAmountSat
                       feeSat actualAmountSat (now_result_ms w) SUCCEEDED)))
    (fun error =>
       ret (Fail (mkExecuteFail
                    ("Payment execution failed: " ++ message_or "Unknown error" error)
                    PAYMENT_FAILED
                    match decode w (paymentRequest p) with
                    | inr invoice => Some (inv_paymentHash invoice)
                    | inl _ => None
                    end))).

(** *** verifyPreimage *)

Definition verifyPreimage (preimage expectedHash : string) : bool :=
  if negb (Nat.eqb (String.length preimage) 64)
     || negb (Nat.eqb (String.length expectedHash) 64) then false
  else hex64_test preimage && hex64_test expectedHash.

End LightningPayment.

(** ** The Hedera HTLC ability (Lock Step) *)

Module HederaHTLC.
Import Js.
Local Open Scope js_scope.

(** [KNOWN_ERRORS] of the HTLC schemas. *)
Inductive Reason : Type :=
| INSUFFICIENT_BALANCE
| INSUFFICIENT_ALLOWANCE
| INVALID_PAYMENT_HASH
| INVALID_TIMELOCK
| TRANSACTION_FAILED
| CONTRACT_ERROR.

Record AbilityParams : Type := mkAbilityParams {
  paymentHash : string;
  amount : string;
  tokenAddress : string;
  htlcContractAddress : string;
  timelock : Z;
  rpcUrl : string;
  chainId : Z
}.

(** [delegation.delegatorPkpInfo] *)
Record PkpInfo : Type := mkPkpInfo {
  ethAddress : string;
  publicKey : string
}.

(** *** hedera-config *)

Record Network : Type := mkNetwork {
  net_chainId : Z;
  net_name : string;
  net_rpcUrl : string;
  net_explorer : string
}.

Definition MAINNET : Network :=
  mkNetwork 295 "Hedera Mainnet" "https://mainnet.hedera.com" "https://hashscan.io/mainnet".
Definition TESTNET : Network :=
  mkNetwork 296 "Hedera Testnet" "https://testnet.hedera.com" "https://hashscan.io/testnet".
Definition PREVIEWNET : Network :=
  mkNetwork 297 "Hedera Previewnet" "https://previewnet.hedera.com" "https://hashscan.io/previewnet".

Definition getHederaNetwork (chainId : Z) : Exn + Network :=
  if chainId =? 295 then inr MAINNET
  else if chainId =? 296 then inr TESTNET
  else if chainId =? 297 then inr PREVIEWNET
  else inl (ErrorObj ("Unsupported Hedera chain ID: " ++ num_to_string chainId)).

(** *** Result payloads *)

Record PrecheckSuccess : Type := mkPrecheckSuccess {
  ps_hasAllowance : bool;
  ps_hasBalance : bool;
  ps_availableBalance : string;
  ps_estimatedGas : string
}.

Record Failure : Type := mkFailure {
  f_error : string;
  f_reason : Reason
}.

Record ExecuteSuccess : Type := mkExecuteSuccess {
  es_contractId : string;
  es_txHash : string;
  es_paymentHash : string;
  es_amount : string;
  es_timelock : Z;
  es_blockNumber : Z
}.

(** *** The ledger and the ethers library *)

(** Arguments of [createHTLCToken(_hashlock, _timelock, _tokenAddress, _amount)]. *)
Record CreateArgs : Type := mkCreateArgs {
  a_hashlock : string;
  a_timelock : Z;
  a_tokenAddress : string;
  a_amount : string
}.

(** Values packed for the locally computed identifier:
    [address, address, uint256, bytes32, uint256, uint256]. *)
Record PackedArgs : Type := mkPackedArgs {
  k_sender : string;
  k_tokenAddress : string;
  k_amount : string;
  k_paymentHash : string;
  k_timelock : Z;
  k_time : Z
}.

(** A log entry of a transaction receipt; the lock-created event carries
    the identifier assigned by the contract in [topics[1]]. *)
Record Log : Type := mkLog {
  log_address : string;
  log_topics : list string;
  log_data : string
}.

Record Receipt : Type := mkReceipt {
  status : Z;
  blockNumber : Z;
  logs : list Log
}.

(** Calls that reach the JSON-RPC endpoint or the signing service. Only
    [ContractCall] changes the ledger: it signs and broadcasts. *)
Inductive Call : Type :=
| BalanceOf (token owner : string)
| Allowance (token owner spender : string)
| EstimateGasCreate (htlc : string) (args : CreateArgs) (from : string)
| GetTransactionCount (address : string)
| GetGasPrice
| EstimateGas (from to data : string)
| ContractCall (contractAddress functionName : string) (args : CreateArgs)
               (callerAddress pkpPublicKey : string) (chain : Z)
| WaitForTransaction (txHash : string) (confirmations : Z).

Record World : Type := mkWorld {
  (** [Date.now()] *)
  now_ms : Z;
  (** [ethers.BigNumber.from(amount)], or what it throws *)
  bigNumber_from : string -> Exn + Z;
  (** [tokenContract.balanceOf(owner)] *)
  balanceOf : string -> string -> Res Z;
  (** [tokenContract.allowance(owner, spender)] *)
  allowance : string -> string -> string -> Res Z;
  (** [htlcContract.estimateGas.createHTLCToken(..., { from })] *)
  estimateGas_createHTLCToken : string -> CreateArgs -> string -> Res Z;
  (** [htlcInterface.encodeFunctionData('createHTLCToken', args)] *)
  encodeFunctionData : CreateArgs -> Exn + string;
  (** [provider.getTransactionCount(address)] *)
  getTransactionCount : string -> Res Z;
  (** [provider.getGasPrice()] *)
  getGasPrice : Res Z;
  (** [provider.estimateGas({ from, to, data })] *)
  estimateGas : string -> string -> string -> Res Z;
  (** [laUtils.transaction.handler.contractCall(...)]: the transaction hash *)
  contractCall : string -> CreateArgs -> string -> string -> Z -> Res string;
  (** [ethers.utils.keccak256(ethers.utils.solidityPack(types, values))] *)
  solidityKeccak256 : PackedArgs -> Exn + string;
  (** [provider.waitForTransaction(txHash, 1)]; [None] is a null receipt *)
  waitForTransaction : string -> Res (option Receipt)
}.

Definition St : Type := list Call.

Definition call {A} (c : Call) (r : Res A) : M St A :=
  modify (fun s => s ++ [c]) ;;; lift r.

(** A library function that returns or throws. *)
Definition pure_or_throw {A} (r : Exn + A) : M St A :=
  match r with
  | inl error => throw error
  | inr a => ret a
  end.

(** [Math.floor(Date.now() / 1000)] *)
Definition now_seconds (w : World) : Z := now_ms w / 1000.

(** *** precheck *)

Definition precheck (w : World) (delegatorPkpInfo : PkpInfo) (p : AbilityParams)
  : M St (Outcome PrecheckSuccess Failure) :=
  try_catch
    (let userAddress := ethAddress delegatorPkpInfo in
     match getHederaNetwork (chainId p) with
     | inl _ =>
         ret (Fail (mkFailure ("Invalid Hedera chain ID: " ++ num_to_string (chainId p))
                              CONTRACT_ERROR))
     | inr _ =>
         if negb (bytes32_test (paymentHash p)) then
           ret (Fail (mkFailure "Payment hash must be a 32-byte hex string (0x...)"
                                INVALID_PAYMENT_HASH))
         else
           let now := now_seconds w in
           if timelock p <=? now then
             ret (Fail (mkFailure
                          ("Timelock (" ++ num_to_string (timelock p)
                             ++ ") must be in the future (current: "
                             ++ num_to_string now ++ ")")
                          INVALID_TIMELOCK))
           else
             balance <- call (BalanceOf (tokenAddress p) userAddress)
                             (balanceOf w (tokenAddress p) userAddress) ;;
             needed <- pure_or_throw (bigNumber_from w (amount p)) ;;
             if balance <? needed then
               ret (Fail (mkFailure
                            ("Insufficient token balance. Have: " ++ num_to_string balance
                               ++ ", Need: " ++ amount p)
                            INSUFFICIENT_BALANCE))
             else
               allowed <- call (Allowance (tokenAddress p) userAddress (htlcContractAddress p))
                               (allowance w (tokenAddress p) userAddress (htlcContractAddress p)) ;;
               needed' <- pure_or_throw (bigNumber_from w (amount p)) ;;
               let hasAllowance := needed' <=? allowed in
               let args := mkCreateArgs (paymentHash p) (timelock p) (tokenAddress p) (amount p) in
               estimatedGas <- call (EstimateGasCreate (htlcContractAddress p) args userAddress)
                                    (estimateGas_createHTLCToken w (htlcContractAddress p) args
                                       userAddress) ;;
               ret (Succeed (mkPrecheckSuccess hasAllowance true (num_to_string balance)
                               (num_to_string estimatedGas)))
     end)
    (fun error =>
       ret (Fail (mkFailure (message_or "Unknown precheck error" error) CONTRACT_ERROR))).

(** *** execute *)

Definition execute (w : World) (delegatorPkpInfo : PkpInfo) (p : AbilityParams)
  : M St (Outcome ExecuteSuccess Failure) :=
  try_catch
    (let userAddress := ethAddress delegatorPkpInfo in
     let pkpPublicKey := publicKey delegatorPkpInfo in
     let args := mkCreateArgs (paymentHash p) (timelock p) (tokenAddress p) (amount p) in
     data <- pure_or_throw (encodeFunctionData w args) ;;
     nonce <- call (GetTransactionCount userAddress) (getTransactionCount w userAddress) ;;
     gasPrice <- call GetGasPrice (getGasPrice w) ;;
     estimatedGas <- call (EstimateGas userAddress (htlcContractAddress p) data)
                          (estimateGas w userAddress (htlcContractAddress p) data) ;;
     let gasLimit := estimatedGas * 120 / 100 in
     txHash <- call (ContractCall (htlcContractAddress p) "createHTLCToken" args
                                  userAddress pkpPublicKey (chainId p))
                    (contractCall w (htlcContractAddress p) args userAddress pkpPublicKey
                       (chainId p)) ;;
     contractId <- pure_or_throw
                     (solidityKeccak256 w
                        (mkPackedArgs userAddress (tokenAddress p) (amount p) (paymentHash p)
                           (timelock p) (now_seconds w))) ;;
     receipt <- call (WaitForTransaction txHash 1) (waitForTransaction w txHash) ;;
     match receipt with
     | None => throw_error "Transaction failed on-chain"
     | Some r =>
         if status r =? 0 then throw_error "Transaction failed on-chain"
         else
           ret (Succeed (mkExecuteSuccess contractId txHash (paymentHash p) (amount p)
                           (timelock p) (blockNumber r)))
     end)
    (fun error =>
       ret (Fail (mkFailure (message_or "Unknown execution error" error) TRANSACTION_FAILED))).

(** The identifier carried by the lock-created event of a receipt, as the
    integration and end-to-end tests read it: [topics[1]] of the first log
    whose [topics[0]] is the event topic
    [ethers.utils.id('HTLCCreated(bytes32,address,address,uint256,bytes32,uint256)')]. *)
Definition is_event (eventTopic : string) (l : Log) : bool :=
  match List.nth_error (log_topics l) 0 with
  | Some t => String.eqb t eventTopic
  | None => false
  end.

Definition event_contractId (eventTopic : string) (r : Receipt) : option string :=
  match List.find (is_event eventTopic) (logs r) with
  | Some l => List.nth_error (log_topics l) 1
  | None => None
  end.

(** Whether the log of a run contains the state-changing call. *)
Definition is_ContractCall (c : Call) : bool :=
  match c with
  | ContractCall _ _ _ _ _ _ => true
  | _ => false
  end.

Definition submitted (s : St) : bool := List.existsb is_ContractCall s.

End HederaHTLC.

(** ** The Lightning invoice ability (Invoice Commitment Step) *)

Module LightningInvoice.
Import Js.
Local Open Scope js_scope.

(** [KNOWN_ERRORS] of the invoice schemas. *)
Inductive Reason : Type :=
| NWC_CONNECTION_FAILED
| INVALID_AMOUNT
| INVOICE_CREATION_FAILED
| NWC_NOT_SUPPORTED
| LIQUIDITY_INSUFFICIENT.

Record AbilityParams : Type := mkAbilityParams {
  amountSat : Z;
  description : option string;
  expirySec : Z;
  nwcUri : string
}.

Record PrecheckSuccess : Type := mkPrecheckSuccess {
  ps_amountSat : Z;
  ps_canReceive : bool;
  ps_estimatedFee : Z
}.

Record Failure : Type := mkFailure {
  f_error : string;
  f_reason : Reason
}.

Record ExecuteSuccess : Type := mkExecuteSuccess {
  es_paymentRequest : string;
  es_paymentHash : string;
  es_amountSat : Z;
  es_description : string;
  es_expiresAt : Z
}.

(** *** The outside world *)

(** A parsed [URL], by the members the body reads. *)
Record URL : Type := mkURL {
  protocol : string;
  hostname : string;
  pathname : string;
  searchParams : list (string * string)
}.

(** [searchParams.get(name)]: the first value under [name], or [null]. *)
Definition searchParams_get (u : URL) (name : string) : option string :=
  match List.find (fun kv => String.eqb (fst kv) name) (searchParams u) with
  | Some kv => Some (snd kv)
  | None => None
  end.

(** [lnClient.getInfo()], by its [alias]. *)
Record Info : Type := mkInfo {
  alias : option string
}.

(** The invoice returned by [ln.requestInvoice]. *)
Record LnInvoice : Type := mkLnInvoice {
  li_paymentRequest : string;
  li_paymentHash : string
}.

(** The response of [nwcClient.makeInvoice]. *)
Record MakeInvoiceResponse : Type := mkMakeInvoiceResponse {
  mi_invoice : string;
  mi_payment_hash : string
}.

(** Calls that reach the payment rail. *)
Inductive Call : Type :=
| NewClient (uri : string)
| GetInfo
| LnFetch (address : string)
| RequestInvoice (address : string) (satoshi : Z) (comment : string)
| MakeInvoice (amountMsat : Z) (memo : string).

Record World : Type := mkWorld {
  (** [new URL(s)], or the [TypeError] it throws *)
  url_parse : string -> Exn + URL;
  (** [new nwc.NWCClient({ nostrWalletConnectUrl })]: what it throws, if anything *)
  new_client : string -> option Exn;
  (** [nwcClient.getInfo()] *)
  getInfo : Res Info;
  (** [ln.fetch()] *)
  ln_fetch : string -> Res unit;
  (** [ln.requestInvoice({ satoshi, comment })] *)
  requestInvoice : string -> Z -> string -> Res LnInvoice;
  (** [nwcClient.makeInvoice({ amount, description })] *)
  makeInvoice : Z -> string -> Res MakeInvoiceResponse;
  (** [Date.now()] *)
  now_ms : Z
}.

Definition St : Type := list Call.

Definition call {A} (c : Call) (r : Res A) : M St A :=
  modify (fun s => s ++ [c]) ;;; lift r.

Definition pure_or_throw {A} (r : Exn + A) : M St A :=
  match r with
  | inl error => throw error
  | inr a => ret a
  end.

(** *** precheck *)

Definition precheck (w : World) (p : AbilityParams)
  : M St (Outcome PrecheckSuccess Failure) :=
  try_catch
    (if amountSat p <=? 0 then
       ret (Fail (mkFailure "Amount must be greater than 0" INVALID_AMOUNT))
     else if negb (startsWith (nwcUri p) "nostr+walletconnect://") then
       ret (Fail (mkFailure "Invalid NWC URI format. Must start with nostr+walletconnect://"
                            NWC_CONNECTION_FAILED))
     else if expirySec p <? 60 then
       ret (Fail (mkFailure "Expiry must be at least 60 seconds" INVALID_AMOUNT))
     else
       ret (Succeed (mkPrecheckSuccess (amountSat p) true 0)))
    (fun error =>
       ret (Fail (mkFailure (message_or "Unknown precheck error" error)
                            NWC_CONNECTION_FAILED))).

(** *** execute *)

(** [description || `HLV Protocol rebalance: ${amountSat} sats`] *)
Definition memo (p : AbilityParams) : string :=
  if truthy_opt_string (description p) then or_empty (description p)
  else "HLV Protocol rebalance: " ++ num_to_string (amountSat p) ++ " sats".

(** [Math.floor(Date.now() / 1000) + expirySec] *)
Definition expiresAt (w : World) (p : AbilityParams) : Z :=
  now_ms w / 1000 + expirySec p.

Definition execute (w : World) (p : AbilityParams)
  : M St (Outcome ExecuteSuccess Failure) :=
  try_catch
    (nwcUrl <- pure_or_throw (url_parse w (nwcUri p)) ;;
     if negb (String.eqb (protocol nwcUrl) "nostr+walletconnect:") then
       throw_error "Invalid NWC URI protocol"
     else
       let walletPubkey :=
         if truthy_string (hostname nwcUrl) then hostname nwcUrl
         else remove_first "//" (pathname nwcUrl) in
       let relayUrl := searchParams_get nwcUrl "relay" in
       let secret := searchParams_get nwcUrl "secret" in
       if negb (truthy_string walletPubkey)
          || negb (truthy_opt_string relayUrl)
          || negb (truthy_opt_string secret) then
         throw_error "NWC URI missing required parameters"
       else
         modify (fun s => s ++ [NewClient (nwcUri p)]) ;;;
         match new_client w (nwcUri p) with
         | Some error => throw error
         | None =>
             info <- call GetInfo (getInfo w) ;;
             let lightningAddress := or_string (searchParams_get nwcUrl "lud16") (alias info) in
             if truthy_opt_string lightningAddress
                && includes_char (or_empty lightningAddress) "@" then
               let address := or_empty lightningAddress in
               call (LnFetch address) (ln_fetch w address) ;;;
               invoice <- call (RequestInvoice address (amountSat p) (memo p))
                               (requestInvoice w address (amountSat p) (memo p)) ;;
               ret (Succeed (mkExecuteSuccess (li_paymentRequest invoice)
                               (li_paymentHash invoice) (amountSat p) (memo p)
                               (expiresAt w p)))
             else
               try_catch
                 (makeInvoiceResponse <-
                    call (MakeInvoice (amountSat p * 1000) (memo p))
                         (makeInvoice w (amountSat p * 1000) (memo p)) ;;
                  ret (Succeed (mkExecuteSuccess (mi_invoice makeInvoiceResponse)
                                  ("0x" ++ mi_payment_hash makeInvoiceResponse)
                                  (amountSat p) (memo p) (expiresAt w p))))
                 (fun makeInvoiceError =>
                    throw_error ("Failed to create invoice via NWC: "
                                   ++ message_or "Unknown error" makeInvoiceError))
         end)
    (fun error =>
       ret (Fail (mkFailure (message_or "Unknown execution error" error)
                            INVOICE_CREATION_FAILED))).

End LightningInvoice.

(** ** Predicates used in the statements, and concrete runs *)

(** A 64-character hexadecimal string. *)
Definition is_hex64 (s : string) : Prop :=
  String.length s = 64%nat /\
  Forall (fun c => Js.is_hex c = true) (list_ascii_of_string s).

(** A connection descriptor that is malformed once parsed: it does not parse,
    its scheme is wrong, or its relay or secret parameter is missing. *)
Definition malformed_descriptor (r : Js.Exn + LightningInvoice.URL) : Prop :=
  match r with
  | inl _ => True
  | inr u =>
      LightningInvoice.protocol u <> "nostr+walletconnect:"
      \/ Js.truthy_opt_string (LightningInvoice.searchParams_get u "relay") = false
      \/ Js.truthy_opt_string (LightningInvoice.searchParams_get u "secret") = false
  end.

Module Sample.
Import Js.

(** The strings of the unit tests: ['a'.repeat(64)], ['b'.repeat(64)],
    ['g'.repeat(64)] and ['a'.repeat(32)]. *)
Definition a64 : string :=
  "aaaaaaaaaaaaaaaaaaaaaaaaaaaaaaaaaaaaaaaaaaaaaaaaaaaaaaaaaaaaaaaa".
Definition b64 : string :=
  "bbbbbbbbbbbbbbbbbbbbbbbbbbbbbbbbbbbbbbbbbbbbbbbbbbbbbbbbbbbbbbbb".
Definition g64 : string :=
  "gggggggggggggggggggggggggggggggggggggggggggggggggggggggggggggggg".
Definition a32 : string := "aaaaaaaaaaaaaaaaaaaaaaaaaaaaaaaa".

(** *** Lightning payment *)

Definition pr : string :=
  "lnbc1500n1pj5y2z8pp5fqqnvh0lx7tqcnvs8j8e3xvqqqqqqqqqqqqqqqqqqqqqqqqqqqqqqqqsdqqcqzpgxqyz5vq".

Definition uri : string :=
  "nostr+walletconnect://pubkey?relay=wss://relay.com&secret=secret".

(** A 150 sat invoice with payment hash [b64]; [expiry] is its expiry date. *)
Definition invoice (expiry : option Z) : LightningPayment.Invoice :=
  LightningPayment.mkInvoice b64 (Some 150) (Some "swap") expiry.

(** The clock reads 1 700 000 000 000 ms. The wallet accepts the
    connection and holds 1000 sat; [paid] is how its pay operation ends and
    [delay] when. *)
Definition pay_world (inv : LightningPayment.Invoice) (paid : Res (option string))
           (delay : Z) : LightningPayment.World :=
  LightningPayment.mkWorld
    (fun s => if String.eqb s pr then inr inv
              else inl (ErrorObj "Failed to decode payment request"))
    (fun _ => None)
    (Ret tt)
    (Ret (Some 1000))
    (fun _ => paid)
    delay
    false
    1700000000000
    1700000002000
    (fun t => if t =? 1600000000000 then "2020-09-13T12:26:40.000Z" else "")
    (fun a => (a + 999) / 1000).

Definition fresh : LightningPayment.St :=
  LightningPayment.mkSt (LightningPayment.mkManager false false None) [].

Definition raw_params (timeout expected : option Z) : LightningPayment.RawParams :=
  LightningPayment.mkRawParams pr None timeout (Some uri) expected.

Definition params (timeout expected : option Z) : LightningPayment.AbilityParams :=
  LightningPayment.mkAbilityParams pr None timeout (Some uri) expected.

(** *** Hedera HTLC *)

Definition token : string := "0x0987654321098765432109876543210987654321".
Definition htlc : string := "0x1234567890123456789012345678901234567890".
Definition hash32 : string :=
  "0x1111111111111111111111111111111111111111111111111111111111111111".

Definition pkp : HederaHTLC.PkpInfo :=
  HederaHTLC.mkPkpInfo "0xAbCdEf1234567890123456789012345678901234" "0x04abcdef".

Definition lock_params (timelock chain : Z) : HederaHTLC.AbilityParams :=
  HederaHTLC.mkAbilityParams hash32 "1000000000000000000" token htlc timelock
    "https://testnet.hedera.com" chain.

(** The ledger of the unit tests: the clock reads 1 700 000 000 s, the
    owner holds twice the amount, every read answers, the broadcast returns
    a transaction hash and the receipt is confirmed with [logs]. [keccak]
    is the digest of the packed values. *)
Definition ledger (keccak : HederaHTLC.PackedArgs -> Exn + string)
           (logs : list HederaHTLC.Log) : HederaHTLC.World :=
  HederaHTLC.mkWorld
    1700000000000
    (fun s => if String.eqb s "1000000000000000000" then inr 1000000000000000000
              else inl (ErrorObj "invalid BigNumber string"))
    (fun _ _ => Ret 2000000000000000000)
    (fun _ _ _ => Ret 2000000000000000000)
    (fun _ _ _ => Ret 100000)
    (fun _ => inr "0xdata")
    (fun _ => Ret 0)
    (Ret 1000000000)
    (fun _ _ _ => Ret 100000)
    (fun _ _ _ _ _ => Ret "0xtxhash123456789")
    keccak
    (fun _ => Ret (Some (HederaHTLC.mkReceipt 1 12345 logs))).

(** A symbolic digest: the digest of packed values is represented by the
    values themselves, so that two digests are equal exactly when their
    inputs are. *)
Definition symbolic_keccak (k : HederaHTLC.PackedArgs) : Exn + string :=
  inr ("keccak256(" ++ HederaHTLC.k_sender k ++ "," ++ HederaHTLC.k_tokenAddress k ++ ","
         ++ HederaHTLC.k_amount k ++ "," ++ HederaHTLC.k_paymentHash k ++ ","
         ++ num_to_string (HederaHTLC.k_timelock k) ++ ","
         ++ num_to_string (HederaHTLC.k_time k) ++ ")")%string.

(** The identifier the contract derives for [lock_params timelock _] sent
    by [pkp] in a block stamped [blockTime]. *)
Definition ledger_contractId (timelock blockTime : Z) : string :=
  match symbolic_keccak
          (HederaHTLC.mkPackedArgs (HederaHTLC.ethAddress pkp) token "1000000000000000000"
             hash32 timelock blockTime) with
  | inr id => id
  | inl _ => ""
  end.

(** The topic of the lock-created event, [ethers.utils.id] of its signature,
    represented by the signature. *)
Definition eventTopic : string :=
  "HTLCCreated(bytes32,address,address,uint256,bytes32,uint256)".

(** The receipt log of a lock-created event carrying [contractId]. *)
Definition created_event (eventTopic contractId : string) : HederaHTLC.Log :=
  HederaHTLC.mkLog htlc [eventTopic; contractId] "0x".

(** *** Lightning invoice *)

Definition good_uri : string :=
  "nostr+walletconnect://test-pubkey?relay=wss://relay.test.com&secret=test-secret".
Definition wrong_scheme_uri : string := "https://invalid-protocol.com".
Definition bare_uri : string := "nostr+walletconnect://test-pubkey".

(** [new URL] on the descriptors of the unit tests. *)
Definition url_table (s : string) : Exn + LightningInvoice.URL :=
  if String.eqb s good_uri then
    inr (LightningInvoice.mkURL "nostr+walletconnect:" "test-pubkey" ""
           [("relay", "wss://relay.test.com"); ("secret", "test-secret")])
  else if String.eqb s wrong_scheme_uri then
    inr (LightningInvoice.mkURL "https:" "invalid-protocol.com" "/" [])
  else if String.eqb s bare_uri then
    inr (LightningInvoice.mkURL "nostr+walletconnect:" "test-pubkey" "" [])
  else inl (ErrorObj "Invalid URL").

(** A wallet that answers every call. *)
Definition wallet : LightningInvoice.World :=
  LightningInvoice.mkWorld
    url_table
    (fun _ => None)
    (Ret (LightningInvoice.mkInfo (Some "node")))
    (fun _ => Ret tt)
    (fun _ _ _ => Ret (LightningInvoice.mkLnInvoice "lnbc10u1address" a64))
    (fun _ _ => Ret (LightningInvoice.mkMakeInvoiceResponse "lnbc10u1nwc" a64))
    1700000000000.

(** A wallet that cannot be reached. *)
Definition offline_wallet : LightningInvoice.World :=
  LightningInvoice.mkWorld
    url_table
    (fun _ => Some (ErrorObj "relay unreachable"))
    Pending
    (fun _ => Pending)
    (fun _ _ _ => Pending)
    (fun _ _ => Pending)
    0.

Definition invoice_params (amount expiry : Z) (u : string) : LightningInvoice.AbilityParams :=
  LightningInvoice.mkAbilityParams amount None expiry u.

End Sample.

(** ** The rest of the connection manager *)

Module ConnectionManager.
Import Js LightningPayment.
Local Open Scope js_scope.

(** [NWCConnectionManager.close]; [closed] is what [lnClient.close()] throws,
    if anything. The client object is kept: only [isConnected] is reset. *)
Definition close (closed : option Exn) : M St unit :=
  s <- get ;;
  if lnClient (mgr s) then
    try_catch
      ((match closed with
        | Some error => throw error
        | None => ret tt
        end) ;;;
       set_isConnected false)
      (fun _ => ret tt)
  else ret tt.

(** The calls of a log that pay an invoice or arm the timer. *)
Definition is_payment (c : Call) : bool :=
  match c with
  | PayInvoice _ => true
  | SetTimeout _ => true
  | _ => false
  end.

Definition payments (s : St) : list Call := List.filter is_payment (calls s).

End ConnectionManager.

(** A byte. *)
Definition is_byte (b : Z) : Prop := 0 <= b < 256.

(** [Number.isSafeInteger]: the integers on which the arithmetic of a number
    is exact as long as its result is one of them, and which are printed by
    their decimal digits. *)
Definition isSafeInteger (z : Z) : Prop := Z.abs z <= 9007199254740991.

(** ** The log of a lock creation *)

(** The calls of a Lock [execute] that went as far as the confirmation wait,
    in their order. *)
Definition lock_execute_log (d : HederaHTLC.PkpInfo) (p : HederaHTLC.AbilityParams)
           (data txHash : string) : list HederaHTLC.Call :=
  [HederaHTLC.GetTransactionCount (HederaHTLC.ethAddress d);
   HederaHTLC.GetGasPrice;
   HederaHTLC.EstimateGas (HederaHTLC.ethAddress d) (HederaHTLC.htlcContractAddress p) data;
   HederaHTLC.ContractCall (HederaHTLC.htlcContractAddress p) "createHTLCToken"
     (HederaHTLC.mkCreateArgs (HederaHTLC.paymentHash p) (HederaHTLC.timelock p)
        (HederaHTLC.tokenAddress p) (HederaHTLC.amount p))
     (HederaHTLC.ethAddress d) (HederaHTLC.publicKey d) (HederaHTLC.chainId p);
   HederaHTLC.WaitForTransaction txHash 1].

(** ** The parameter schema of the invoice ability *)

Module LightningInvoiceSchema.

(** What a caller sends, before [abilityParamsSchema] is applied. *)
Record RawParams : Type := mkRawParams {
  raw_amountSat : Z;
  raw_description : option string;
  raw_expirySec : option Z;
  raw_nwcUri : string
}.

(** [abilityParamsSchema.safeParse]: [amountSat] positive, [expirySec]
    positive with default 86400; [None] when a field is rejected. *)
Definition abilityParamsSchema (r : RawParams) : option LightningInvoice.AbilityParams :=
  if 0 <? raw_amountSat r then
    match LightningPayment.positive_default 86400 (raw_expirySec r) with
    | Some e =>
        Some (LightningInvoice.mkAbilityParams (raw_amountSat r) (raw_description r) e
                (raw_nwcUri r))
    | None => None
    end
  else None.

End LightningInvoiceSchema.

(** ** The usage examples of the payment ability *)

Module Examples.

(** The double nearest to 0.01 is [cent_mantissa / 2^59]. *)
Definition cent_mantissa : Z := 5764607523034235.
Definition cent_scale : Z := 59.

(** Rounding of a non-negative integer to 53 significant bits, to nearest,
    ties to even: the rounding of a binary64 product in the normal range. *)
Definition round53 (P : Z) : Z :=
  let nbits := Z.log2 P + 1 in
  if nbits <=? 53 then P
  else
    let shift := nbits - 53 in
    let q := Z.shiftr P shift in
    let rem := P - Z.shiftl q shift in
    let half := Z.shiftl 1 (shift - 1) in
    let q' := if (half <? rem) || ((rem =? half) && Z.odd q) then q + 1 else q in
    Z.shiftl q' shift.

(** [Math.ceil(amountSat * 0.01)] for an integer [amountSat] that a double
    holds exactly: the numerator of the rounded product over [2^59], then the
    least integer above it. *)
Definition ceil_cent (amountSat : Z) : Z :=
  let n := Z.sgn amountSat * round53 (Z.abs amountSat * cent_mantissa) in
  - ((- n) / 2 ^ cent_scale).

(** [calculateMaxFee] *)
Definition calculateMaxFee (amountSat : Z) : Z :=
  let baseFee := 10 in
  let percentageFee := ceil_cent amountSat in
  Z.min (baseFee + percentageFee) 1000.

End Examples.

(** ** More concrete runs *)

Module MoreSamples.
Import Js Sample.

(** The wallet of [pay_world], with its client constructor and its balance
    given. *)
Definition pay_world_with (inv : LightningPayment.Invoice) (client : option Exn)
           (balance : Res (option Z)) (paid : Res (option string)) (delay : Z)
  : LightningPayment.World :=
  LightningPayment.mkWorld
    (fun s => if String.eqb s pr then inr inv
              else inl (ErrorObj "Failed to decode payment request"))
    (fun _ => client)
    (Ret tt)
    balance
    (fun _ => paid)
    delay
    false
    1700000000000
    1700000002000
    (fun t => if t =? 1600000000000 then "2020-09-13T12:26:40.000Z" else "")
    (fun a => (a + 999) / 1000).

Definition unreachable : option Exn := Some (ErrorObj "relay unreachable").

(** An invoice that names no amount. *)
Definition amountless : LightningPayment.Invoice :=
  LightningPayment.mkInvoice b64 None None None.

(** The manager after a successful connection with [uri]. *)
Definition connected : LightningPayment.St :=
  LightningPayment.mkSt (LightningPayment.mkManager true true None)
    [LightningPayment.NewClient uri; LightningPayment.GetInfo].

(** A manager that finds [uri] in the environment. *)
Definition fresh_env : LightningPayment.St :=
  LightningPayment.mkSt (LightningPayment.mkManager false false (Some uri)) [].

(** The ledger of [ledger], with the owner's balance, the allowance and the
    receipt given. *)
Definition ledger_with (balance allowed : Z) (receipt : option HederaHTLC.Receipt)
  : HederaHTLC.World :=
  HederaHTLC.mkWorld
    1700000000000
    (fun s => if String.eqb s "1000000000000000000" then inr 1000000000000000000
              else inl (ErrorObj "invalid BigNumber string"))
    (fun _ _ => Ret balance)
    (fun _ _ _ => Ret allowed)
    (fun _ _ _ => Ret 100000)
    (fun _ => inr "0xdata")
    (fun _ => Ret 0)
    (Ret 1000000000)
    (fun _ _ _ => Ret 100000)
    (fun _ _ _ _ _ => Ret "0xtxhash123456789")
    symbolic_keccak
    (fun _ => Ret receipt).

(** A ledger whose JSON-RPC endpoint rejects the gas estimate. *)
Definition reverting_ledger : HederaHTLC.World :=
  HederaHTLC.mkWorld
    1700000000000
    (fun _ => inr 1000000000000000000)
    (fun _ _ => Ret 2000000000000000000)
    (fun _ _ _ => Ret 2000000000000000000)
    (fun _ _ _ => Throw (ErrorObj "execution reverted"))
    (fun _ => inr "0xdata")
    (fun _ => Ret 0)
    (Ret 1000000000)
    (fun _ _ _ => Throw (ErrorObj "execution reverted"))
    (fun _ _ _ _ _ => Ret "0xtxhash123456789")
    symbolic_keccak
    (fun _ => Pending).

(** The lock parameters of the unit tests with another payment hash. *)
Definition lock_params_hash (hash : string) : HederaHTLC.AbilityParams :=
  HederaHTLC.mkAbilityParams hash "1000000000000000000" token htlc 1800000000
    "https://testnet.hedera.com" 296.

(** The same with a timelock ten seconds before the clock of [ledger], on the
    chain given. *)
Definition elapsed_lock_params (hash : string) (chain : Z) : HederaHTLC.AbilityParams :=
  HederaHTLC.mkAbilityParams hash "1000000000000000000" token htlc 1699999990
    "https://testnet.hedera.com" chain.

(** A wallet whose alias is a Lightning Address. *)
Definition address_wallet : LightningInvoice.World :=
  LightningInvoice.mkWorld
    url_table
    (fun _ => None)
    (Ret (LightningInvoice.mkInfo (Some "user@getalby.com")))
    (fun _ => Ret tt)
    (fun _ _ _ => Ret (LightningInvoice.mkLnInvoice "lnbc10u1address" a64))
    (fun _ _ => Ret (LightningInvoice.mkMakeInvoiceResponse "lnbc10u1nwc" a64))
    1700000000000.

Definition invoice_raw (amount : Z) (expiry : option Z) (u : string)
  : LightningInvoiceSchema.RawParams :=
  LightningInvoiceSchema.mkRawParams amount None expiry u.

End MoreSamples.

(** * Properties *)

(** ** The SHA-256 model on the published test vectors *)

Example sha256_empty :
  SHA256.to_hex (SHA256.digest []) =
  "e3b0c44298fc1c149afbf4c8996fb92427ae41e4649b934ca495991b7852b855".
Proof. vm_compute. reflexivity. Qed.

Example sha256_abc :
  SHA256.to_hex (SHA256.digest (SHA256.bytes_of_string "abc")) =
  "ba7816bf8f01cfea414140de5dae2223b00361a396177a9cb410ff61f20015ad".
Proof. vm_compute. reflexivity. Qed.

Example sha256_two_blocks :
  SHA256.to_hex (SHA256.digest (SHA256.bytes_of_string
    "abcdbcdecdefdefgefghfghighijhijkijkljklmklmnlmnomnopnopq")) =
  "248d6a61d20638b8e5c026930c3e6039a33ce45964ff2167f6ecedd419db06c1".
Proof. vm_compute. reflexivity. Qed.

(** ** Regular expressions *)

Section Regex.
Import Js.

Variable cls : ascii -> bool.

(** [cls{n}$] accepts exactly the strings of [n] characters of the class. *)
Lemma match_repeat_at_end (n : nat) :
  forall s,
    at_end (match_repeat cls n s) = true <->
    String.length s = n /\ Forall (fun c => cls c = true) (list_ascii_of_string s).
Proof.
  induction n as [|n IH]; intros s; simpl.
  - destruct s; simpl; split.
    + intros _. split; [reflexivity | constructor].
    + reflexivity.
    + discriminate.
    + intros [H _]. discriminate.
  - destruct s as [|c r]; simpl.
    + split; [discriminate | intros [H _]; discriminate].
    + destruct (cls c) eqn:Hc.
      * rewrite IH. split.
        -- intros [Hl Hf]. split; [congruence | constructor; assumption].
        -- intros [Hl Hf]. inversion Hf; subst. split; [congruence | assumption].
      * split; [discriminate |].
        intros [_ Hf]. inversion Hf; subst. congruence.
Qed.

End Regex.

Lemma hex64_test_spec (s : string) : Js.hex64_test s = true <-> is_hex64 s.
Proof. unfold Js.hex64_test, is_hex64. apply match_repeat_at_end. Qed.

(** ** The monad *)

Section MonadFacts.
Import Js.
Context {S A : Type}.

Lemma try_catch_Ret (m : M S A) h s a s' :
  m s = (Ret a, s') -> try_catch m h s = (Ret a, s').
Proof. unfold try_catch. intros ->. reflexivity. Qed.

End MonadFacts.

(** ** The connection manager *)

Section Manager.
Import Js LightningPayment.

(** A connection that succeeds leaves the manager connected. *)
Lemma connect_connected w u s s' :
  connect w u s = (Ret tt, s') ->
  lnClient (mgr s') = true /\ isConnected (mgr s') = true.
Proof.
  unfold connect, bind, get, try_catch, record_call, set_lnClient, set_isConnected,
    modify, lift, throw_error, throw, ret.
  destruct (negb (truthy_opt_string (or_string u (env_nwcUri (mgr s))))); [discriminate |].
  destruct (lnClient (mgr s) && isConnected (mgr s)) eqn:Hc.
  - intros H. inversion H; subst. apply andb_true_iff in Hc. exact Hc.
  - cbn. destruct (new_client w _); [discriminate |].
    cbn. destruct (getInfo w) as [[]|e|]; cbn; intros H; inversion H; subst; cbn; auto.
Qed.

(** Once connected, the manager forwards the pay operation to the wallet. *)
Lemma manager_payInvoice_connected w invoice s :
  lnClient (mgr s) = true -> isConnected (mgr s) = true ->
  manager_payInvoice w invoice s =
  (match payInvoice w invoice with
   | Ret preimage => Ret (mkPayResult preimage 0)
   | Throw e => Throw e
   | Pending => Pending
   end, mkSt (mgr s) (calls s ++ [PayInvoice invoice])).
Proof.
  intros Hl Hc.
  unfold manager_payInvoice, bind, get, try_catch, record_call, modify, lift,
    throw_error, throw, ret.
  rewrite Hl, Hc. cbn. destruct (payInvoice w invoice); reflexivity.
Qed.

End Manager.

(** ** Settlement Step *)

Section Settlement.
Import Js LightningPayment.

(** The payment that [execute] awaits, once the manager is connected: the
    wallet's answer, or the timer's rejection. *)
Lemma awaited_payment w p s :
  lnClient (mgr s) = true -> isConnected (mgr s) = true ->
  fst ((if truthy_num (or_zero (timeoutSeconds p)) then
          race w (or_zero (timeoutSeconds p) * 1000)
               (manager_payInvoice w (paymentRequest p))
        else manager_payInvoice w (paymentRequest p)) s) =
  if truthy_num (or_zero (timeoutSeconds p)) then
    match payInvoice w (paymentRequest p) with
    | Pending => Throw (ErrorObj "Payment timeout")
    | Ret preimage =>
        if timer_wins w (or_zero (timeoutSeconds p) * 1000)
        then Throw (ErrorObj "Payment timeout") else Ret (mkPayResult preimage 0)
    | Throw e =>
        if timer_wins w (or_zero (timeoutSeconds p) * 1000)
        then Throw (ErrorObj "Payment timeout") else Throw e
    end
  else
    match payInvoice w (paymentRequest p) with
    | Ret preimage => Ret (mkPayResult preimage 0)
    | Throw e => Throw e
    | Pending => Pending
    end.
Proof.
  intros Hl Hc.
  destruct (truthy_num (or_zero (timeoutSeconds p))).
  - unfold race. rewrite (manager_payInvoice_connected w _ s Hl Hc).
    destruct (payInvoice w (paymentRequest p)); cbn;
      try destruct (timer_wins w _); reflexivity.
  - rewrite (manager_payInvoice_connected w _ s Hl Hc). reflexivity.
Qed.

(** What [execute] answers in terms of the awaited payment, when the
    invoice decodes and the wallet connects. *)
Lemma execute_after_connect w p s inv s1 :
  decode w (paymentRequest p) = inr inv ->
  connect w (nwcUri p) s = (Ret tt, s1) ->
  fst (execute w p s) =
  match fst ((if truthy_num (or_zero (timeoutSeconds p)) then
                race w (or_zero (timeoutSeconds p) * 1000)
                     (manager_payInvoice w (paymentRequest p))
              else manager_payInvoice w (paymentRequest p)) s1) with
  | Ret paymentResult =>
      if truthy_opt_string (pr_preimage paymentResult)
         && Nat.eqb (String.length (or_empty (pr_preimage paymentResult))) 64
      then
        Ret (Succeed (mkExecuteSuccess (or_empty (pr_preimage paymentResult))
                        (inv_paymentHash inv) (or_zero (inv_satoshi inv))
                        (if or_zero (inv_satoshi inv)
                            <? (if truthy_num (pr_amount paymentResult)
                                then pr_amount paymentResult else or_zero (inv_satoshi inv))
                         then Z.max 0 ((if truthy_num (pr_amount paymentResult)
                                        then pr_amount paymentResult
                                        else or_zero (inv_satoshi inv))
                                       - or_zero (inv_satoshi inv))
                         else 0)
                        (if truthy_num (pr_amount paymentResult)
                         then pr_amount paymentResult else or_zero (inv_satoshi inv))
                        (now_result_ms w) SUCCEEDED))
      else
        Ret (Fail (mkExecuteFail
                     ("Payment execution failed: Invalid preimage received: "
                        ++ show_opt_string (pr_preimage paymentResult))
                     PAYMENT_FAILED (Some (inv_paymentHash inv))))
  | Throw e =>
      Ret (Fail (mkExecuteFail ("Payment execution failed: " ++ message_or "Unknown error" e)
                   PAYMENT_FAILED (Some (inv_paymentHash inv))))
  | Pending => Pending
  end.
Proof.
  intros Hd Hc.
  unfold execute, try_catch, new_Invoice.
  rewrite Hd.
  unfold bind at 1. unfold ret at 1.
  unfold bind at 1. rewrite Hc.
  unfold bind at 1.
  match goal with
  | |- context [(if ?c then ?a else ?b) s1] =>
      destruct ((if c then a else b) s1) as [[paymentResult|e|] s2]
  end; cbn [fst].
  - destruct (truthy_opt_string (pr_preimage paymentResult)); cbn [negb orb andb].
    + destruct (Nat.eqb (String.length (or_empty (pr_preimage paymentResult))) 64);
        cbn [negb]; reflexivity.
    + reflexivity.
  - reflexivity.
  - reflexivity.
Qed.

(** The preimage check of [execute] is a check of presence and length. *)
Lemma execute_settled w p s inv preimage :
  decode w (paymentRequest p) = inr inv ->
  fst (connect w (nwcUri p) s) = Ret tt ->
  payInvoice w (paymentRequest p) = Ret preimage ->
  (truthy_num (or_zero (timeoutSeconds p)) = true ->
   timer_wins w (or_zero (timeoutSeconds p) * 1000) = false) ->
  fst (execute w p s) =
  if truthy_opt_string preimage && Nat.eqb (String.length (or_empty preimage)) 64
  then Ret (Succeed (mkExecuteSuccess (or_empty preimage) (inv_paymentHash inv)
                       (or_zero (inv_satoshi inv)) 0 (or_zero (inv_satoshi inv))
                       (now_result_ms w) SUCCEEDED))
  else Ret (Fail (mkExecuteFail
                    ("Payment execution failed: Invalid preimage received: "
                       ++ show_opt_string preimage)
                    PAYMENT_FAILED (Some (inv_paymentHash inv)))).
Proof.
  intros Hd Hc Hp Ht.
  destruct (connect w (nwcUri p) s) as [r s1] eqn:Hcs. cbn in Hc. subst r.
  rewrite (execute_after_connect w p s inv s1 Hd Hcs).
  destruct (connect_connected _ _ _ _ Hcs) as [Hl Hi].
  rewrite (awaited_payment w p s1 Hl Hi), Hp.
  destruct (truthy_num (or_zero (timeoutSeconds p))).
  - rewrite (Ht eq_refl). cbn [pr_preimage pr_amount truthy_num Z.eqb negb].
    rewrite Z.ltb_irrefl. reflexivity.
  - cbn [pr_preimage pr_amount truthy_num Z.eqb negb].
    rewrite Z.ltb_irrefl. reflexivity.
Qed.

(** A timer that elapses first makes [execute] fail with the timeout
    message. *)
Lemma execute_timer_first w p s inv t :
  decode w (paymentRequest p) = inr inv ->
  fst (connect w (nwcUri p) s) = Ret tt ->
  timeoutSeconds p = Some t -> 0 < t ->
  payInvoice w (paymentRequest p) = Pending \/ t * 1000 < pay_delay_ms w ->
  fst (execute w p s) =
  Ret (Fail (mkExecuteFail "Payment execution failed: Payment timeout" PAYMENT_FAILED
               (Some (inv_paymentHash inv)))).
Proof.
  intros Hd Hc Ht Hpos Hfirst.
  destruct (connect w (nwcUri p) s) as [r s1] eqn:Hcs. cbn in Hc. subst r.
  rewrite (execute_after_connect w p s inv s1 Hd Hcs).
  destruct (connect_connected _ _ _ _ Hcs) as [Hl Hi].
  rewrite (awaited_payment w p s1 Hl Hi), Ht. cbn [or_zero].
  assert (Htr : truthy_num t = true).
  { unfold truthy_num. apply negb_true_iff. apply Z.eqb_neq. lia. }
  rewrite Htr.
  destruct Hfirst as [Hp | Hlt].
  - rewrite Hp. reflexivity.
  - assert (Hw : timer_wins w (t * 1000) = true).
    { unfold timer_wins. apply orb_true_iff. left. apply Z.ltb_lt. exact Hlt. }
    rewrite Hw. destruct (payInvoice w (paymentRequest p)); reflexivity.
Qed.

(** Without a timer, a payment that never settles leaves [execute] waiting. *)
Lemma execute_no_timer_waits w p s inv :
  decode w (paymentRequest p) = inr inv ->
  fst (connect w (nwcUri p) s) = Ret tt ->
  timeoutSeconds p = None ->
  payInvoice w (paymentRequest p) = Pending ->
  fst (execute w p s) = Pending.
Proof.
  intros Hd Hc Ht Hp.
  destruct (connect w (nwcUri p) s) as [r s1] eqn:Hcs. cbn in Hc. subst r.
  rewrite (execute_after_connect w p s inv s1 Hd Hcs).
  destruct (connect_connected _ _ _ _ Hcs) as [Hl Hi].
  rewrite (awaited_payment w p s1 Hl Hi), Ht, Hp. reflexivity.
Qed.

(** The schema accepts only positive timeouts and supplies 60 when none is
    given. *)
Lemma schema_timeout raw p :
  abilityParamsSchema raw = Some p ->
  exists t, timeoutSeconds p = Some t /\ 0 < t /\
            (raw_timeoutSeconds raw = None -> t = 60).
Proof.
  unfold abilityParamsSchema.
  destruct (paymentRequest_test (raw_paymentRequest raw)); [| discriminate].
  destruct (positive_optional (raw_maxFeesat raw)); [| discriminate].
  unfold positive_default.
  destruct (raw_timeoutSeconds raw) as [t|].
  - destruct (0 <? t) eqn:Hpos; [| discriminate].
    destruct (positive_optional (raw_expectedAmountSat raw)); [| discriminate].
    intros H. inversion H; subst. exists t. cbn.
    split; [reflexivity | split; [apply Z.ltb_lt; exact Hpos | discriminate]].
  - destruct (positive_optional (raw_expectedAmountSat raw)); [| discriminate].
    intros H. inversion H; subst. exists 60. cbn.
    split; [reflexivity | split; [lia | reflexivity]].
Qed.

(** The schema accepts only positive expected amounts. *)
Lemma schema_expected raw p e :
  abilityParamsSchema raw = Some p ->
  expectedAmountSat p = Some e -> 0 < e.
Proof.
  unfold abilityParamsSchema.
  destruct (paymentRequest_test (raw_paymentRequest raw)); [| discriminate].
  destruct (positive_optional (raw_maxFeesat raw)); [| discriminate].
  destruct (positive_default 60 (raw_timeoutSeconds raw)); [| discriminate].
  unfold positive_optional.
  destruct (raw_expectedAmountSat raw) as [x|].
  - destruct (0 <? x) eqn:Hpos; [| discriminate].
    intros H. inversion H; subst. cbn. intros He. inversion He; subst.
    apply Z.ltb_lt. exact Hpos.
  - intros H. inversion H; subst. cbn. discriminate.
Qed.

End Settlement.

(** ** Invoice Validation *)

Section InvoiceValidation.
Import Js LightningPayment.

(** C6, as amended. An invoice that decodes, carries an expiry date (its
    decoded [expiresAt] is not 0) and whose [expiresAt] is earlier than the
    clock makes [precheck] fail with [INVOICE_EXPIRED], before the wallet is
    contacted. *)
Theorem precheck_rejects_expired_invoice w p s inv :
  decode w (paymentRequest p) = inr inv ->
  or_zero (inv_expiryDate inv) <> 0 ->
  or_zero (inv_expiryDate inv) < now_ms w ->
  precheck w p s =
  (Ret (Fail (mkPrecheckFail
                ("Invoice expired at " ++ toISOString w (or_zero (inv_expiryDate inv)))
                INVOICE_EXPIRED)), s).
Proof.
  intros Hd Hnz Hlt.
  unfold precheck. apply try_catch_Ret. rewrite Hd.
  assert (H1 : truthy_num (or_zero (inv_expiryDate inv)) = true).
  { unfold truthy_num. apply negb_true_iff. apply Z.eqb_neq. exact Hnz. }
  assert (H2 : (or_zero (inv_expiryDate inv) <? now_ms w) = true).
  { apply Z.ltb_lt. exact Hlt. }
  rewrite H1, H2. reflexivity.
Qed.

(** The expiry test of [precheck] on an invoice that is not expired. *)
Lemma unexpired_test w inv :
  or_zero (inv_expiryDate inv) = 0 \/ now_ms w <= or_zero (inv_expiryDate inv) ->
  truthy_num (or_zero (inv_expiryDate inv)) && (or_zero (inv_expiryDate inv) <? now_ms w)
  = false.
Proof.
  intros [H0 | Hge].
  - rewrite H0. reflexivity.
  - apply andb_false_iff. right. apply Z.ltb_ge. exact Hge.
Qed.

(** C5. For an invoice that decodes and is not expired, and an expected
    amount accepted by the schema: a different decoded amount makes
    [precheck] fail with [AMOUNT_MISMATCH] before the wallet is contacted;
    an equal one never does, and a success then reports that amount. *)
Theorem precheck_expected_amount w raw p s inv e :
  abilityParamsSchema raw = Some p ->
  decode w (paymentRequest p) = inr inv ->
  expectedAmountSat p = Some e ->
  or_zero (inv_expiryDate inv) = 0 \/ now_ms w <= or_zero (inv_expiryDate inv) ->
  (e <> or_zero (inv_satoshi inv) ->
   exists msg, precheck w p s = (Ret (Fail (mkPrecheckFail msg AMOUNT_MISMATCH)), s))
  /\ (e = or_zero (inv_satoshi inv) ->
      (forall f, fst (precheck w p s) = Ret (Fail f) -> pf_reason f <> AMOUNT_MISMATCH)
      /\ (forall d, fst (precheck w p s) = Ret (Succeed d) -> ps_amountSat d = e)).
Proof.
  intros Hs Hd He Hu.
  pose proof (schema_expected raw p e Hs He) as Hpos.
  assert (Htr : truthy_num e = true).
  { unfold truthy_num. apply negb_true_iff. apply Z.eqb_neq. lia. }
  split.
  - intros Hne. eexists.
    unfold precheck. apply try_catch_Ret. rewrite Hd, (unexpired_test w inv Hu), He, Htr.
    assert (Hneq : (or_zero (inv_satoshi inv) =? e) = false).
    { apply Z.eqb_neq. congruence. }
    rewrite Hneq. reflexivity.
  - intros Heq.
    assert (Hbody : forall r, fst (precheck w p s) = Ret r ->
              (exists f, r = Fail f /\ pf_reason f = INSUFFICIENT_LIQUIDITY)
              \/ (exists d, r = Succeed d /\ ps_amountSat d = e)).
    { intros r. unfold precheck.
      rewrite Hd.
      unfold try_catch at 1.
      rewrite (unexpired_test w inv Hu), He, Htr.
      rewrite <- Heq, Z.eqb_refl, Htr. cbn [negb andb orb].
      assert (Hz : (e =? 0) = false) by (apply Z.eqb_neq; lia).
      rewrite Hz.
      unfold try_catch, bind, ret.
      destruct (connect w (nwcUri p) s) as [[[]|ex|] s1].
      - destruct (manager_getBalance w s1) as [[av|ex|] s2].
        + destruct (gt_opt e av); cbn [fst]; intros H; inversion H; subst.
          * left. eexists. split; reflexivity.
          * right. eexists. split; reflexivity.
        + cbn [fst]. intros H. inversion H; subst.
          right. eexists. split; reflexivity.
        + cbn [fst]. discriminate.
      - cbn [fst]. intros H. inversion H; subst.
        right. eexists. split; reflexivity.
      - cbn [fst]. discriminate. }
    split.
    + intros f Hf. destruct (Hbody _ Hf) as [[f' [Hff Hr]] | [d [Hfd _]]].
      * inversion Hff; subst. rewrite Hr. discriminate.
      * discriminate.
    + intros d Hsd. destruct (Hbody _ Hsd) as [[f' [Hff _]] | [d' [Hfd Ha]]].
      * discriminate.
      * inversion Hfd; subst. exact Ha.
Qed.

End InvoiceValidation.

(** ** Claims on the payment ability, on concrete runs *)

Section PaymentRuns.
Import Js LightningPayment Sample.

(** Scenario A and Scenario B of the specification. *)
Example scenario_A :
  fst (precheck (pay_world (invoice (Some 1800000000000)) Pending 0)
                (params (Some 60) (Some 150)) fresh) =
  Ret (Succeed (mkPrecheckSuccess true b64 150 "unknown" "swap" 1800000000000
                  (Some 1000) (Some 1))).
Proof. vm_compute. reflexivity. Qed.

Example scenario_B :
  fst (precheck (pay_world (invoice (Some 1800000000000)) Pending 0)
                (params (Some 60) (Some 200)) fresh) =
  Ret (Fail (mkPrecheckFail
               "Invoice amount (150 sat) does not match expected amount (200 sat)"
               AMOUNT_MISMATCH)).
Proof. vm_compute. reflexivity. Qed.

Lemma precheck_expected_amount_witness :
  (exists msg,
      precheck (pay_world (invoice (Some 1800000000000)) Pending 0)
               (params (Some 60) (Some 200)) fresh =
      (Ret (Fail (mkPrecheckFail msg AMOUNT_MISMATCH)), fresh))
  /\ (forall d,
         fst (precheck (pay_world (invoice (Some 1800000000000)) Pending 0)
                       (params (Some 60) (Some 150)) fresh) = Ret (Succeed d) ->
         ps_amountSat d = 150).
Proof.
  assert (Hu : or_zero (inv_expiryDate (invoice (Some 1800000000000))) = 0 \/
               now_ms (pay_world (invoice (Some 1800000000000)) Pending 0)
               <= or_zero (inv_expiryDate (invoice (Some 1800000000000)))).
  { right. cbn. lia. }
  split.
  - apply (proj1 (precheck_expected_amount
                    (pay_world (invoice (Some 1800000000000)) Pending 0)
                    (raw_params None (Some 200)) (params (Some 60) (Some 200)) fresh
                    (invoice (Some 1800000000000)) 200
                    eq_refl eq_refl eq_refl Hu)).
    cbn. lia.
  - apply (proj2 (precheck_expected_amount
                    (pay_world (invoice (Some 1800000000000)) Pending 0)
                    (raw_params None (Some 150)) (params (Some 60) (Some 150)) fresh
                    (invoice (Some 1800000000000)) 150
                    eq_refl eq_refl eq_refl Hu)).
    reflexivity.
Defined.

Lemma precheck_rejects_expired_invoice_witness :
  precheck (pay_world (invoice (Some 1600000000000)) Pending 0)
           (params (Some 60) None) fresh =
  (Ret (Fail (mkPrecheckFail "Invoice expired at 2020-09-13T12:26:40.000Z" INVOICE_EXPIRED)),
   fresh).
Proof.
  apply (precheck_rejects_expired_invoice
           (pay_world (invoice (Some 1600000000000)) Pending 0)
           (params (Some 60) None) fresh (invoice (Some 1600000000000)) eq_refl).
  - cbn. lia.
  - cbn. lia.
Defined.

(** C6, counterexample. An invoice without expiry date is decoded with
    [expiresAt = 0], which is earlier than the clock; [precheck] does not
    fail with [INVOICE_EXPIRED]: it succeeds and reports [expiresAt = 0]. *)
Lemma precheck_accepts_invoice_without_expiry :
  or_zero (inv_expiryDate (invoice None)) < now_ms (pay_world (invoice None) Pending 0)
  /\ fst (precheck (pay_world (invoice None) Pending 0) (params (Some 60) None) fresh) =
     Ret (Succeed (mkPrecheckSuccess true b64 150 "unknown" "swap" 0 (Some 1000) (Some 1))).
Proof. split; [cbn; lia | vm_compute; reflexivity]. Qed.

(** C7, as amended. With the invoice decoded and the wallet connected:
    parameters that passed the schema always carry a positive timeout, 60
    when the caller gave none; a timer that elapses before the pay operation
    completes makes [execute] fail with [PAYMENT_FAILED] and the message
    [Payment timeout]; only a body called without any timeout waits for a
    payment that never settles. *)
Theorem execute_timeout_policy w p s inv :
  decode w (paymentRequest p) = inr inv ->
  fst (connect w (nwcUri p) s) = Ret tt ->
  (forall raw,
      abilityParamsSchema raw = Some p ->
      exists t, timeoutSeconds p = Some t /\ 0 < t /\
                (raw_timeoutSeconds raw = None -> t = 60))
  /\ (forall t,
         timeoutSeconds p = Some t -> 0 < t ->
         payInvoice w (paymentRequest p) = Pending \/ t * 1000 < pay_delay_ms w ->
         fst (execute w p s) =
         Ret (Fail (mkExecuteFail "Payment execution failed: Payment timeout"
                      PAYMENT_FAILED (Some (inv_paymentHash inv)))))
  /\ (timeoutSeconds p = None ->
      payInvoice w (paymentRequest p) = Pending ->
      fst (execute w p s) = Pending).
Proof.
  intros Hd Hc. split; [| split].
  - intros raw Hs. exact (schema_timeout raw p Hs).
  - intros t Ht Hpos Hfirst. exact (execute_timer_first w p s inv t Hd Hc Ht Hpos Hfirst).
  - intros Ht Hp. exact (execute_no_timer_waits w p s inv Hd Hc Ht Hp).
Qed.

Lemma execute_timeout_policy_witness :
  (exists t, timeoutSeconds (params (Some 60) None) = Some t /\ 0 < t /\
             (raw_timeoutSeconds (raw_params None None) = None -> t = 60))
  /\ fst (execute (pay_world (invoice None) (Ret (Some a64)) 70000)
                  (params (Some 60) None) fresh) =
     Ret (Fail (mkExecuteFail "Payment execution failed: Payment timeout"
                  PAYMENT_FAILED (Some b64)))
  /\ fst (execute (pay_world (invoice None) Pending 0) (params None None) fresh) = Pending.
Proof.
  split; [| split].
  - apply (proj1 (execute_timeout_policy
                    (pay_world (invoice None) Pending 0) (params (Some 60) None) fresh
                    (invoice None) eq_refl eq_refl) (raw_params None None)).
    reflexivity.
  - apply (proj1 (proj2 (execute_timeout_policy
                           (pay_world (invoice None) (Ret (Some a64)) 70000)
                           (params (Some 60) None) fresh
                           (invoice None) eq_refl eq_refl)) 60).
    + reflexivity.
    + lia.
    + right. cbn. lia.
  - apply (proj2 (proj2 (execute_timeout_policy
                           (pay_world (invoice None) Pending 0)
                           (params None None) fresh
                           (invoice None) eq_refl eq_refl))).
    + reflexivity.
    + reflexivity.
Defined.

(** C7, counterexample. The caller supplies no [timeoutSeconds]; the schema
    fills in 60; the pay operation never completes; [execute] does not wait:
    it fails with [PAYMENT_FAILED] when the 60 s timer fires. *)
Lemma execute_default_timeout_fires :
  abilityParamsSchema (raw_params None None) = Some (params (Some 60) None)
  /\ execute (pay_world (invoice None) Pending 0) (params (Some 60) None) fresh =
     (Ret (Fail (mkExecuteFail "Payment execution failed: Payment timeout"
                   PAYMENT_FAILED (Some b64))),
      mkSt (mkManager true true None)
           [NewClient uri; GetInfo; PayInvoice pr; SetTimeout 60000]).
Proof. split; vm_compute; reflexivity. Qed.

(** C1. The wallet answers the pay operation with the preimage [a64]; the
    invoice commits to the payment hash [b64]; the SHA-256 digest of the
    preimage is not that hash; [execute] reports success and hands both
    out. *)
Theorem execute_succeeds_without_hash_check :
  SHA256.sha256_hex a64 <> b64
  /\ fst (execute (pay_world (invoice None) (Ret (Some a64)) 10)
                  (params (Some 60) None) fresh) =
     Ret (Succeed (mkExecuteSuccess a64 b64 150 0 150 1700000002000 SUCCEEDED)).
Proof. split; [vm_compute; discriminate | vm_compute; reflexivity]. Qed.

(** C4. A preimage of 32 hexadecimal characters is rejected with
    [PAYMENT_FAILED]; a preimage of 64 characters that are not hexadecimal
    is not: [execute] reports success and hands it out. *)
Theorem execute_checks_preimage_length_only :
  fst (execute (pay_world (invoice None) (Ret (Some a32)) 10)
               (params (Some 60) None) fresh) =
  Ret (Fail (mkExecuteFail
               "Payment execution failed: Invalid preimage received: aaaaaaaaaaaaaaaaaaaaaaaaaaaaaaaa"
               PAYMENT_FAILED (Some b64)))
  /\ hex64_test g64 = false
  /\ fst (execute (pay_world (invoice None) (Ret (Some g64)) 10)
                  (params (Some 60) None) fresh) =
     Ret (Succeed (mkExecuteSuccess g64 b64 150 0 150 1700000002000 SUCCEEDED)).
Proof. repeat split; vm_compute; reflexivity. Qed.

(** C9. [verifyPreimage] answers [true] exactly when both arguments are
    64-character hexadecimal strings. The digest plays no part: it answers
    [true] on a pair whose digest does not match, as on one whose digest
    matches. *)
Theorem verifyPreimage_checks_format_only :
  (forall preimage expectedHash,
      verifyPreimage preimage expectedHash = true <->
      is_hex64 preimage /\ is_hex64 expectedHash)
  /\ (verifyPreimage a64 b64 = true /\ SHA256.sha256_hex a64 <> b64)
  /\ (verifyPreimage a64 (SHA256.sha256_hex a64) = true).
Proof.
  split; [| split].
  - intros p h. unfold verifyPreimage.
    rewrite <- !hex64_test_spec.
    destruct (Nat.eqb (String.length p) 64) eqn:Hp;
      destruct (Nat.eqb (String.length h) 64) eqn:Hh; cbn [negb orb].
    + apply andb_true_iff.
    + split; [discriminate |]. intros [_ H].
      apply hex64_test_spec in H. destruct H as [H _].
      apply Nat.eqb_neq in Hh. contradiction.
    + split; [discriminate |]. intros [H _].
      apply hex64_test_spec in H. destruct H as [H _].
      apply Nat.eqb_neq in Hp. contradiction.
    + split; [discriminate |]. intros [H _].
      apply hex64_test_spec in H. destruct H as [H _].
      apply Nat.eqb_neq in Hp. contradiction.
  - split; [vm_compute; reflexivity | vm_compute; discriminate].
  - vm_compute. reflexivity.
Qed.

End PaymentRuns.

(** ** Lock Step *)

Section LockStep.
Import Js HederaHTLC.

Lemma submitted_app s c : submitted (s ++ [c]) = submitted s || is_ContractCall c.
Proof. unfold submitted. rewrite List.existsb_app. cbn. rewrite orb_false_r. reflexivity. Qed.

(** [precheck] never reaches the state-changing call. *)
Lemma precheck_never_submits w d p s :
  submitted (snd (precheck w d p s)) = submitted s.
Proof.
  unfold precheck, try_catch, bind, call, pure_or_throw, modify, lift, throw, ret.
  destruct (getHederaNetwork (chainId p)); [reflexivity |].
  destruct (negb (bytes32_test (paymentHash p))); [reflexivity |].
  destruct (timelock p <=? now_seconds w); [reflexivity |].
  cbn.
  destruct (balanceOf w (tokenAddress p) (ethAddress d)) as [balance|e|]; cbn;
    try (rewrite submitted_app; cbn; apply orb_false_r).
  destruct (bigNumber_from w (amount p)) as [e|needed]; cbn;
    try (rewrite submitted_app; cbn; apply orb_false_r).
  destruct (balance <? needed); cbn;
    try (rewrite submitted_app; cbn; apply orb_false_r).
  destruct (allowance w (tokenAddress p) (ethAddress d) (htlcContractAddress p))
    as [allowed|e|]; cbn;
    try (rewrite !submitted_app; cbn; rewrite !orb_false_r; reflexivity).
  destruct (estimateGas_createHTLCToken w (htlcContractAddress p) _ (ethAddress d))
    as [gas|e|]; cbn;
    rewrite !submitted_app; cbn; rewrite !orb_false_r; reflexivity.
Qed.

(** [execute] has no timelock test: once its preparatory reads have
    answered, it submits. *)
Lemma execute_submits w d p s data nonce gasPrice gas :
  encodeFunctionData w (mkCreateArgs (paymentHash p) (timelock p) (tokenAddress p) (amount p))
  = inr data ->
  getTransactionCount w (ethAddress d) = Ret nonce ->
  getGasPrice w = Ret gasPrice ->
  estimateGas w (ethAddress d) (htlcContractAddress p) data = Ret gas ->
  submitted (snd (execute w d p s)) = true.
Proof.
  intros He Hn Hg Hest.
  unfold execute, try_catch, bind, call, pure_or_throw, modify, lift, throw_error, throw, ret.
  rewrite He. cbn. rewrite Hn. cbn. rewrite Hg. cbn. rewrite Hest. cbn.
  destruct (contractCall w _ _ _ _ _) as [txHash|e|]; cbn;
    try (rewrite !submitted_app; cbn; rewrite ?orb_true_r; reflexivity).
  destruct (solidityKeccak256 w _) as [e|contractId]; cbn;
    try (rewrite !submitted_app; cbn; rewrite ?orb_true_r; reflexivity).
  destruct (waitForTransaction w txHash) as [[r|]|e|]; cbn;
    try (rewrite !submitted_app; cbn; rewrite ?orb_true_r; reflexivity).
  destruct (status r =? 0); cbn;
    rewrite !submitted_app; cbn; rewrite ?orb_true_r; reflexivity.
Qed.

(** C2, as amended. [precheck] tests the chain id, then the format of the
    payment hash, then the timelock, and the first test that fails decides
    the answer; none of them calls the ledger (the log is returned as it
    was). So a timelock that is not in the future makes [precheck] fail with
    [INVALID_TIMELOCK] exactly on a supported chain and with a well-formed
    payment hash: on another chain the answer is [CONTRACT_ERROR], whatever
    the hash and the timelock are, and on a supported chain a malformed hash
    gives [INVALID_PAYMENT_HASH], whatever the timelock is. The two messages
    that print a number are given for safe integers. [precheck] never submits
    the lock-creation call. [execute] does not look at the clock for the
    timelock: it submits as soon as its preparatory reads answer. *)
Theorem lock_timelock_guard w d p s :
  (chainId p <> 295 -> chainId p <> 296 -> chainId p <> 297 ->
   exists msg,
     precheck w d p s = (Ret (Fail (mkFailure msg CONTRACT_ERROR)), s)
     /\ (isSafeInteger (chainId p) ->
         msg = ("Invalid Hedera chain ID: " ++ num_to_string (chainId p))%string))
  /\ (chainId p = 295 \/ chainId p = 296 \/ chainId p = 297 ->
      bytes32_test (paymentHash p) = false ->
      precheck w d p s =
      (Ret (Fail (mkFailure "Payment hash must be a 32-byte hex string (0x...)"
                    INVALID_PAYMENT_HASH)), s))
  /\ (chainId p = 295 \/ chainId p = 296 \/ chainId p = 297 ->
      bytes32_test (paymentHash p) = true ->
      timelock p <= now_seconds w ->
      exists msg,
        precheck w d p s = (Ret (Fail (mkFailure msg INVALID_TIMELOCK)), s)
        /\ (isSafeInteger (timelock p) -> isSafeInteger (now_seconds w) ->
            msg = ("Timelock (" ++ num_to_string (timelock p)
                     ++ ") must be in the future (current: "
                     ++ num_to_string (now_seconds w) ++ ")")%string))
  /\ (forall w' d' p' s', submitted (snd (precheck w' d' p' s')) = submitted s')
  /\ (forall data nonce gasPrice gas,
         encodeFunctionData w (mkCreateArgs (paymentHash p) (timelock p) (tokenAddress p)
                                 (amount p)) = inr data ->
         getTransactionCount w (ethAddress d) = Ret nonce ->
         getGasPrice w = Ret gasPrice ->
         estimateGas w (ethAddress d) (htlcContractAddress p) data = Ret gas ->
         submitted (snd (execute w d p s)) = true).
Proof.
  assert (Hnet : chainId p = 295 \/ chainId p = 296 \/ chainId p = 297 ->
                 exists n, getHederaNetwork (chainId p) = inr n).
  { unfold getHederaNetwork.
    intros [-> | [-> | ->]]; cbn; eexists; reflexivity. }
  split; [| split; [| split; [| split]]].
  - intros H1 H2 H3. eexists. split.
    + unfold precheck. apply try_catch_Ret. unfold getHederaNetwork.
      apply Z.eqb_neq in H1, H2, H3. rewrite H1, H2, H3. reflexivity.
    + intros _. reflexivity.
  - intros Hchain Hhash. unfold precheck. apply try_catch_Ret.
    destruct (Hnet Hchain) as [n ->]. rewrite Hhash. reflexivity.
  - intros Hchain Hhash Htl. eexists. split.
    + unfold precheck. apply try_catch_Ret.
      destruct (Hnet Hchain) as [n ->]. rewrite Hhash. cbn [negb].
      assert (Hle : (timelock p <=? now_seconds w) = true) by (apply Z.leb_le; exact Htl).
      rewrite Hle. reflexivity.
    + intros _ _. reflexivity.
  - intros w' d' p' s'. apply precheck_never_submits.
  - intros data nonce gasPrice gas. apply execute_submits.
Qed.

(** When [execute] succeeds, the identifier it returns is the digest it
    computed from its own parameters and its own clock. *)
Lemma execute_contractId_local w d p s r :
  fst (execute w d p s) = Ret (Succeed r) ->
  solidityKeccak256 w
    (mkPackedArgs (ethAddress d) (tokenAddress p) (amount p) (paymentHash p) (timelock p)
       (now_seconds w)) = inr (es_contractId r).
Proof.
  unfold execute, try_catch, bind, call, pure_or_throw, modify, lift, throw_error, throw, ret.
  destruct (encodeFunctionData w _) as [e|data]; cbn; [discriminate |].
  destruct (getTransactionCount w _) as [nonce|e|]; cbn; try discriminate.
  destruct (getGasPrice w) as [gasPrice|e|]; cbn; try discriminate.
  destruct (estimateGas w _ _ _) as [gas|e|]; cbn; try discriminate.
  destruct (contractCall w _ _ _ _ _) as [txHash|e|]; cbn; try discriminate.
  destruct (solidityKeccak256 w _) as [e|contractId]; cbn; [discriminate |].
  destruct (waitForTransaction w txHash) as [[rc|]|e|]; cbn; try discriminate.
  destruct (status rc =? 0); cbn; [discriminate |].
  intros H. inversion H; subst. reflexivity.
Qed.

End LockStep.

Section LockRuns.
Import Js HederaHTLC Sample.

Lemma lock_timelock_guard_witness :
  precheck (ledger symbolic_keccak []) pkp (lock_params 1699999990 296) [] =
  (Ret (Fail (mkFailure
                "Timelock (1699999990) must be in the future (current: 1700000000)"
                INVALID_TIMELOCK)), [])
  /\ precheck (ledger symbolic_keccak []) pkp (MoreSamples.elapsed_lock_params a64 296) [] =
     (Ret (Fail (mkFailure "Payment hash must be a 32-byte hex string (0x...)"
                   INVALID_PAYMENT_HASH)), [])
  /\ (exists msg,
         precheck (ledger symbolic_keccak []) pkp (MoreSamples.elapsed_lock_params a64 1) [] =
         (Ret (Fail (mkFailure msg CONTRACT_ERROR)), [])
         /\ (isSafeInteger 1 -> msg = "Invalid Hedera chain ID: 1"))
  /\ submitted (snd (precheck (ledger symbolic_keccak []) pkp (lock_params 1800000000 296) []))
     = false
  /\ submitted (snd (execute (ledger symbolic_keccak []) pkp (lock_params 1699999990 296) []))
     = true.
Proof.
  assert (Ht : timelock (lock_params 1699999990 296)
               <= now_seconds (ledger symbolic_keccak [])).
  { vm_compute. discriminate. }
  pose proof (lock_timelock_guard (ledger symbolic_keccak []) pkp
                (lock_params 1699999990 296) []) as [_ [_ [H3 [H4 H5]]]].
  pose proof (lock_timelock_guard (ledger symbolic_keccak []) pkp
                (MoreSamples.elapsed_lock_params a64 296) []) as [_ [H2 _]].
  pose proof (lock_timelock_guard (ledger symbolic_keccak []) pkp
                (MoreSamples.elapsed_lock_params a64 1) []) as [H1 _].
  split; [| split; [| split; [| split]]].
  - destruct (H3 (or_intror (or_introl eq_refl)) eq_refl Ht) as [msg [Hrun Hmsg]].
    rewrite Hrun, Hmsg; [reflexivity | vm_compute; discriminate | vm_compute; discriminate].
  - exact (H2 (or_intror (or_introl eq_refl)) eq_refl).
  - apply H1; discriminate.
  - exact (H4 (ledger symbolic_keccak []) pkp (lock_params 1800000000 296) []).
  - exact (H5 "0xdata" 0 1000000000 100000 eq_refl eq_refl eq_refl eq_refl).
Defined.

(** C2, counterexample. With a timelock ten seconds in the past: (1) on
    chain 1, [precheck] fails with [CONTRACT_ERROR], not [INVALID_TIMELOCK];
    (2) on chain 296 with a payment hash of 64 hexadecimal digits that lacks
    the [0x] prefix, [precheck] fails with [INVALID_PAYMENT_HASH], not
    [INVALID_TIMELOCK]; (3) on chain 296 with a well-formed hash, [execute]
    submits [createHTLCToken] and reports success. *)
Lemma lock_elapsed_timelock_not_guarded :
  timelock (lock_params 1699999990 1) <= now_seconds (ledger symbolic_keccak [])
  /\ precheck (ledger symbolic_keccak []) pkp (lock_params 1699999990 1) [] =
     (Ret (Fail (mkFailure "Invalid Hedera chain ID: 1" CONTRACT_ERROR)), [])
  /\ timelock (MoreSamples.elapsed_lock_params a64 296) <= now_seconds (ledger symbolic_keccak [])
  /\ precheck (ledger symbolic_keccak []) pkp (MoreSamples.elapsed_lock_params a64 296) [] =
     (Ret (Fail (mkFailure "Payment hash must be a 32-byte hex string (0x...)"
                   INVALID_PAYMENT_HASH)), [])
  /\ execute (ledger symbolic_keccak []) pkp (lock_params 1699999990 296) [] =
     (Ret (Succeed (mkExecuteSuccess (ledger_contractId 1699999990 1700000000)
                      "0xtxhash123456789" hash32 "1000000000000000000" 1699999990 12345)),
      [GetTransactionCount (ethAddress pkp);
       GetGasPrice;
       EstimateGas (ethAddress pkp) htlc "0xdata";
       ContractCall htlc "createHTLCToken"
         (mkCreateArgs hash32 1699999990 token "1000000000000000000")
         (ethAddress pkp) (publicKey pkp) 296;
       WaitForTransaction "0xtxhash123456789" 1]).
Proof.
  split; [vm_compute; discriminate |].
  split; [vm_compute; reflexivity |].
  split; [vm_compute; discriminate |].
  split; vm_compute; reflexivity.
Qed.

(** C3. Whatever the digest function and whatever identifier the
    lock-created event of the receipt carries, [execute] answers with the
    digest of its own parameters and of its own clock (1 700 000 000 s):
    the receipt's logs are not read. With the lock mined in a block stamped
    three seconds later, the identifier assigned by the ledger is the one in
    the event, and it is not the one [execute] returns. *)
Theorem execute_contractId_not_from_event :
  (forall keccak topic evt,
      event_contractId topic (mkReceipt 1 12345 [created_event topic evt]) = Some evt
      /\ fst (execute (ledger keccak [created_event topic evt]) pkp
                      (lock_params 1800000000 296) []) =
         match keccak (mkPackedArgs (ethAddress pkp) token "1000000000000000000" hash32
                         1800000000 1700000000) with
         | inr id =>
             Ret (Succeed (mkExecuteSuccess id "0xtxhash123456789" hash32
                             "1000000000000000000" 1800000000 12345))
         | inl e =>
             Ret (Fail (mkFailure (message_or "Unknown execution error" e)
                          TRANSACTION_FAILED))
         end)
  /\ event_contractId eventTopic
       (mkReceipt 1 12345 [created_event eventTopic (ledger_contractId 1800000000 1700000003)])
     = Some (ledger_contractId 1800000000 1700000003)
  /\ fst (execute (ledger symbolic_keccak
                     [created_event eventTopic (ledger_contractId 1800000000 1700000003)])
                  pkp (lock_params 1800000000 296) []) =
     Ret (Succeed (mkExecuteSuccess (ledger_contractId 1800000000 1700000000)
                     "0xtxhash123456789" hash32 "1000000000000000000" 1800000000 12345))
  /\ ledger_contractId 1800000000 1700000000 <> ledger_contractId 1800000000 1700000003.
Proof.
  split; [| split; [| split]].
  - intros keccak topic evt. split.
    + unfold event_contractId, created_event, is_event. cbn.
      rewrite String.eqb_refl. reflexivity.
    + unfold execute, try_catch, bind, call, pure_or_throw, modify, lift, throw_error,
        throw, ret. cbn.
      destruct (keccak _); reflexivity.
  - vm_compute. reflexivity.
  - vm_compute. reflexivity.
  - vm_compute. discriminate.
Qed.

End LockRuns.

(** ** Invoice Commitment Step *)

Section InvoiceCommitment.
Import Js LightningInvoice.

(** C10. With a positive amount, a descriptor that starts with
    [nostr+walletconnect://] and an expiry of at least 60 seconds, [precheck]
    succeeds with [{ amountSat, canReceive: true, estimatedFee: 0 }] and
    leaves the log of calls to the payment rail as it found it; the answer
    is the same in any two worlds. *)
Theorem invoice_precheck_is_local w1 w2 p s :
  0 < amountSat p ->
  startsWith (nwcUri p) "nostr+walletconnect://" = true ->
  60 <= expirySec p ->
  precheck w1 p s = (Ret (Succeed (mkPrecheckSuccess (amountSat p) true 0)), s)
  /\ precheck w2 p s = precheck w1 p s.
Proof.
  intros Ha Hu He.
  assert (H1 : (amountSat p <=? 0) = false) by (apply Z.leb_gt; exact Ha).
  assert (H2 : (expirySec p <? 60) = false) by (apply Z.ltb_ge; exact He).
  assert (Hp : forall w,
             precheck w p s = (Ret (Succeed (mkPrecheckSuccess (amountSat p) true 0)), s)).
  { intros w. unfold precheck. apply try_catch_Ret. rewrite H1, Hu, H2. reflexivity. }
  split; [apply Hp | rewrite !Hp; reflexivity].
Qed.

(** Every failure of [execute] carries [INVOICE_CREATION_FAILED]. *)
Lemma execute_failure_reason w p s f :
  fst (execute w p s) = Ret (Fail f) -> f_reason f = INVOICE_CREATION_FAILED.
Proof.
  unfold execute, try_catch, bind, call, pure_or_throw, modify, lift, throw_error, throw, ret.
  destruct (url_parse w (nwcUri p)) as [e|u]; cbn.
  - intros H. inversion H; subst. reflexivity.
  - destruct (negb (String.eqb (protocol u) "nostr+walletconnect:")); cbn.
    + intros H. inversion H; subst. reflexivity.
    + match goal with
      | |- context [if ?c then _ else _] => destruct c
      end; cbn.
      * intros H. inversion H; subst. reflexivity.
      * destruct (new_client w (nwcUri p)) as [e|]; cbn.
        -- intros H. inversion H; subst. reflexivity.
        -- destruct (getInfo w) as [info|e|]; cbn;
             try (intros H; inversion H; subst; reflexivity).
           match goal with
           | |- context [if ?c then _ else _] => destruct c
           end; cbn.
           ++ destruct (ln_fetch w _) as [[]|e|]; cbn;
                try (intros H; inversion H; subst; reflexivity).
              destruct (requestInvoice w _ _ _) as [i|e|]; cbn;
                intros H; inversion H; subst; reflexivity.
           ++ destruct (makeInvoice w _ _) as [i|e|]; cbn;
                intros H; inversion H; subst; reflexivity.
Qed.

(** A malformed descriptor stops [execute] before the payment rail is
    contacted. *)
Lemma execute_malformed w p s :
  malformed_descriptor (url_parse w (nwcUri p)) ->
  exists msg, execute w p s = (Ret (Fail (mkFailure msg INVOICE_CREATION_FAILED)), s).
Proof.
  unfold malformed_descriptor, execute, try_catch, bind, pure_or_throw, throw_error,
    throw, ret.
  destruct (url_parse w (nwcUri p)) as [e|u]; cbn.
  - intros _. eexists. reflexivity.
  - intros Hm.
    destruct (String.eqb (protocol u) "nostr+walletconnect:") eqn:Hp; cbn.
    + destruct Hm as [Hm | [Hm | Hm]].
      * apply String.eqb_eq in Hp. contradiction.
      * rewrite Hm. cbn. rewrite orb_true_r. cbn. eexists. reflexivity.
      * rewrite Hm. cbn. rewrite !orb_true_r. eexists. reflexivity.
    + eexists. reflexivity.
Qed.

(** C8, as amended. In [precheck], a descriptor that does not start with
    [nostr+walletconnect://] fails with [NWC_CONNECTION_FAILED] (the amount
    being positive); the relay and secret parameters are not examined
    there. In [execute], a malformed descriptor - one that does not parse,
    has a wrong scheme, or lacks its relay or its secret - fails with
    [INVOICE_CREATION_FAILED] before the payment rail is contacted, as does
    every other failure of [execute]. *)
Theorem invoice_descriptor_errors w p s :
  (0 < amountSat p ->
   startsWith (nwcUri p) "nostr+walletconnect://" = false ->
   precheck w p s =
   (Ret (Fail (mkFailure "Invalid NWC URI format. Must start with nostr+walletconnect://"
                         NWC_CONNECTION_FAILED)), s))
  /\ (malformed_descriptor (url_parse w (nwcUri p)) ->
      exists msg, execute w p s = (Ret (Fail (mkFailure msg INVOICE_CREATION_FAILED)), s))
  /\ (forall f, fst (execute w p s) = Ret (Fail f) -> f_reason f = INVOICE_CREATION_FAILED).
Proof.
  split; [| split].
  - intros Ha Hu.
    assert (H1 : (amountSat p <=? 0) = false) by (apply Z.leb_gt; exact Ha).
    unfold precheck. apply try_catch_Ret. rewrite H1, Hu. reflexivity.
  - apply execute_malformed.
  - intros f. apply execute_failure_reason.
Qed.

End InvoiceCommitment.

Section InvoiceRuns.
Import Js LightningInvoice Sample.

Lemma invoice_precheck_is_local_witness :
  precheck wallet (invoice_params 1000 3600 good_uri) [] =
  (Ret (Succeed (mkPrecheckSuccess 1000 true 0)), [])
  /\ precheck offline_wallet (invoice_params 1000 3600 good_uri) [] =
     precheck wallet (invoice_params 1000 3600 good_uri) [].
Proof.
  apply (invoice_precheck_is_local wallet offline_wallet
           (invoice_params 1000 3600 good_uri) []).
  - cbn. lia.
  - reflexivity.
  - cbn. lia.
Defined.

Lemma invoice_descriptor_errors_witness :
  precheck wallet (invoice_params 1000 3600 wrong_scheme_uri) [] =
  (Ret (Fail (mkFailure "Invalid NWC URI format. Must start with nostr+walletconnect://"
                        NWC_CONNECTION_FAILED)), [])
  /\ (exists msg,
         execute wallet (invoice_params 1000 3600 bare_uri) [] =
         (Ret (Fail (mkFailure msg INVOICE_CREATION_FAILED)), [])).
Proof.
  split.
  - apply (proj1 (invoice_descriptor_errors wallet
                    (invoice_params 1000 3600 wrong_scheme_uri) [])).
    + cbn. lia.
    + reflexivity.
  - apply (proj1 (proj2 (invoice_descriptor_errors wallet
                           (invoice_params 1000 3600 bare_uri) []))).
    cbn. right. left. reflexivity.
Defined.

(** C8, counterexample. In [execute], a descriptor with the scheme [https]
    and one without relay and secret both fail with
    [INVOICE_CREATION_FAILED]; in [precheck], the descriptor without relay
    and secret does not fail at all. *)
Lemma invoice_descriptor_not_connection_failed :
  execute wallet (invoice_params 1000 3600 wrong_scheme_uri) [] =
  (Ret (Fail (mkFailure "Invalid NWC URI protocol" INVOICE_CREATION_FAILED)), [])
  /\ execute wallet (invoice_params 1000 3600 bare_uri) [] =
     (Ret (Fail (mkFailure "NWC URI missing required parameters" INVOICE_CREATION_FAILED)), [])
  /\ precheck wallet (invoice_params 1000 3600 bare_uri) [] =
     (Ret (Succeed (mkPrecheckSuccess 1000 true 0)), []).
Proof. repeat split; vm_compute; reflexivity. Qed.

End InvoiceRuns.

(** * Further properties of the code *)

(** ** Exceptions and the ability boundary *)

Section Boundary.
Import Js.
Context {S A : Type}.

(** A [try] whose handler returns lets no exception out. *)
Lemma try_catch_handled (m : M S A) (h : Exn -> M S A) s :
  (forall e s', exists a s'', h e s' = (Ret a, s'')) ->
  forall e, fst (try_catch m h s) <> Throw e.
Proof.
  intros Hh e. unfold try_catch.
  destruct (m s) as [[a|e'|] s']; cbn; try discriminate.
  destruct (Hh e' s') as [a [s'' ->]]. cbn. discriminate.
Qed.

End Boundary.

(** ** The connection manager *)

Section ManagerMore.
Import Js LightningPayment ConnectionManager.

Lemma payments_app s c :
  List.filter is_payment (calls s ++ [c]) =
  List.filter is_payment (calls s) ++ (if is_payment c then [c] else []).
Proof. rewrite List.filter_app. cbn. destruct (is_payment c); reflexivity. Qed.

(** [connect] keeps the [NWC_URI] of the environment and neither pays nor
    arms a timer. *)
Lemma connect_frame w u s :
  env_nwcUri (mgr (snd (connect w u s))) = env_nwcUri (mgr s)
  /\ payments (snd (connect w u s)) = payments s.
Proof.
  unfold payments, connect, bind, get, try_catch, record_call, set_lnClient, set_isConnected,
    modify, lift, throw_error, throw, ret.
  destruct (negb (truthy_opt_string (or_string u (env_nwcUri (mgr s))))); [split; reflexivity |].
  destruct (lnClient (mgr s) && isConnected (mgr s)); [split; reflexivity |].
  cbn. destruct (new_client w _); cbn.
  - rewrite payments_app. cbn. rewrite List.app_nil_r. split; reflexivity.
  - destruct (getInfo w) as [[]|e|]; cbn;
      rewrite !List.filter_app; cbn; rewrite !List.app_nil_r; split; reflexivity.
Qed.

(** [getBalance] leaves the manager as it is and neither pays nor arms a
    timer. *)
Lemma manager_getBalance_frame w s :
  mgr (snd (manager_getBalance w s)) = mgr s
  /\ payments (snd (manager_getBalance w s)) = payments s.
Proof.
  unfold payments, manager_getBalance, bind, get, try_catch, record_call, modify, lift,
    throw_error, throw, ret.
  destruct (negb (isConnected (mgr s)) || negb (lnClient (mgr s))); [split; reflexivity |].
  cbn. destruct (getBalance w); cbn;
    rewrite !List.filter_app; cbn; rewrite !List.app_nil_r; split; reflexivity.
Qed.


(** X1. Once a connection has succeeded, a later [connect] - with any
    descriptor, whatever the wallet would now answer - reuses the client: it
    returns at once, contacts nobody and changes nothing, as long as a
    descriptor is available at all. *)
Theorem connect_reuses_client w u s s1 w' u' :
  connect w u s = (Ret tt, s1) ->
  truthy_opt_string (or_string u' (env_nwcUri (mgr s1))) = true ->
  connect w' u' s1 = (Ret tt, s1).
Proof.
  intros Hc Hu. destruct (connect_connected _ _ _ _ Hc) as [Hl Hi].
  unfold connect, bind, get. rewrite Hu, Hl, Hi. reflexivity.
Qed.

(** X2. Without a descriptor - none in the parameters (or an empty one) and
    none in the environment - [connect] throws before anything else, even on a
    manager that is already connected; the manager and the log are
    untouched. *)
Theorem connect_requires_descriptor w u s :
  truthy_opt_string u = false ->
  truthy_opt_string (env_nwcUri (mgr s)) = false ->
  connect w u s =
  (Throw (ErrorObj
            "NWC URI not provided. Set NWC_URI environment variable or provide in ability params."),
   s).
Proof.
  intros Hu He. unfold connect, bind, get, or_string. rewrite Hu, He. reflexivity.
Qed.

(** X3. When a descriptor is available and [connect] throws, the manager is
    left disconnected, and the manager then refuses to pay or to read the
    balance without reaching the wallet. *)
Theorem failed_connect_blocks_wallet w u s e s1 invoice :
  truthy_opt_string (or_string u (env_nwcUri (mgr s))) = true ->
  connect w u s = (Throw e, s1) ->
  isConnected (mgr s1) = false
  /\ (exists msg, e = ErrorObj ("NWC connection failed: " ++ msg))
  /\ manager_payInvoice w invoice s1 = (Throw (ErrorObj not_connected), s1)
  /\ manager_getBalance w s1 = (Throw (ErrorObj not_connected), s1).
Proof.
  intros Hu Hc.
  assert (H : isConnected (mgr s1) = false
              /\ exists msg, e = ErrorObj ("NWC connection failed: " ++ msg)).
  { revert Hc.
    unfold connect, bind, get, try_catch, record_call, set_lnClient, set_isConnected,
      modify, lift, throw_error, throw, ret.
    rewrite Hu. cbn [negb].
    destruct (lnClient (mgr s) && isConnected (mgr s)); [discriminate |].
    cbn. destruct (new_client w _) as [e0|]; cbn.
    - intros H. inversion H; subst. cbn. split; [reflexivity | eexists; reflexivity].
    - destruct (getInfo w) as [[]|e0|]; cbn; intros H; inversion H; subst; cbn.
      split; [reflexivity | eexists; reflexivity]. }
  destruct H as [Hi Hm]. split; [exact Hi | split; [exact Hm |]].
  unfold manager_payInvoice, manager_getBalance, bind, get, throw_error, throw.
  rewrite Hi. cbn. split; reflexivity.
Qed.

(** X4. [close] never throws. With a client at hand and a [close()] that
    returns, it resets [isConnected] and keeps the client, so that the next
    [connect] opens a new client; when [close()] throws, or when there is no
    client, nothing changes. *)
Theorem close_then_connect w u s closed :
  (forall e, fst (close closed s) <> Throw e)
  /\ (lnClient (mgr s) = true -> closed = None ->
      truthy_opt_string (or_string u (env_nwcUri (mgr s))) = true ->
      close closed s = (Ret tt, mkSt (mkManager true false (env_nwcUri (mgr s))) (calls s))
      /\ exists rest,
          calls (snd (connect w u (snd (close closed s)))) =
          calls s ++ NewClient (or_empty (or_string u (env_nwcUri (mgr s)))) :: rest)
  /\ (lnClient (mgr s) = false \/ closed <> None -> close closed s = (Ret tt, s)).
Proof.
  split; [| split].
  - intros e. unfold close, bind, get, try_catch, set_isConnected, modify, throw, ret.
    destruct (lnClient (mgr s)); cbn; [| discriminate].
    destruct closed; cbn; discriminate.
  - intros Hl -> Hu.
    assert (Hc : close None s =
                 (Ret tt, mkSt (mkManager true false (env_nwcUri (mgr s))) (calls s))).
    { unfold close, bind, get, try_catch, set_isConnected, modify, throw, ret.
      rewrite Hl. cbn. rewrite Hl. reflexivity. }
    split; [exact Hc |].
    rewrite Hc. cbn [snd].
    unfold connect, bind, get, try_catch, record_call, set_lnClient, set_isConnected,
      modify, lift, throw_error, throw, ret.
    cbn. rewrite Hu. cbn.
    destruct (new_client w _); cbn.
    + eexists. rewrite <- ?List.app_assoc. cbn. reflexivity.
    + destruct (getInfo w) as [[]|e|]; cbn; eexists;
        rewrite <- ?List.app_assoc; cbn; reflexivity.
  - intros H. unfold close, bind, get, try_catch, set_isConnected, modify, throw, ret.
    destruct (lnClient (mgr s)) eqn:Hl; [| reflexivity].
    destruct H as [H | H]; [discriminate |].
    destruct closed; [reflexivity | contradiction].
Qed.

End ManagerMore.

(** ** More on Invoice Validation and the Settlement Step *)

Section PaymentMore.
Import Js LightningPayment ConnectionManager.


(** What a successful [precheck] has established. *)
Lemma precheck_succeed_inv w p s d s' :
  precheck w p s = (Ret (Succeed d), s') ->
  exists inv,
    decode w (paymentRequest p) = inr inv
    /\ truthy_num (or_zero (inv_expiryDate inv))
       && (or_zero (inv_expiryDate inv) <? now_ms w) = false
    /\ match expectedAmountSat p with
       | Some e => truthy_num e && negb (or_zero (inv_satoshi inv) =? e)
       | None => false
       end = false
    /\ or_zero (inv_satoshi inv) <> 0
    /\ exists liquidity,
        d = mkPrecheckSuccess true (inv_paymentHash inv) (or_zero (inv_satoshi inv)) "unknown"
              (or_empty (inv_description inv)) (or_zero (inv_expiryDate inv)) liquidity
              (Some (fee_estimate w (or_zero (inv_satoshi inv))))
        /\ ((exists s1,
                connect w (nwcUri p) s = (Ret tt, s1)
                /\ manager_getBalance w s1 = (Ret liquidity, s')
                /\ gt_opt (or_zero (inv_satoshi inv)) liquidity = false)
            \/ (liquidity = None
                /\ ((exists e, connect w (nwcUri p) s = (Throw e, s'))
                    \/ (exists s1 e,
                           connect w (nwcUri p) s = (Ret tt, s1)
                           /\ manager_getBalance w s1 = (Throw e, s'))))).
Proof.
  unfold precheck, try_catch at 1.
  destruct (decode w (paymentRequest p)) as [e|inv]; [cbn; discriminate |].
  intros H. exists inv. split; [reflexivity |]. revert H.
  destruct (truthy_num (or_zero (inv_expiryDate inv))
            && (or_zero (inv_expiryDate inv) <? now_ms w)); [cbn; discriminate |].
  intros H. split; [reflexivity |]. revert H.
  match goal with
  | |- context [if ?c then _ else _] => destruct c
  end; [cbn; discriminate |].
  intros H. split; [reflexivity |]. revert H.
  unfold truthy_num at 1.
  destruct (or_zero (inv_satoshi inv) =? 0) eqn:Hz; [cbn; discriminate |].
  intros H. split; [apply Z.eqb_neq; exact Hz |].
  cbn [negb orb] in H.
  unfold try_catch, bind, ret in H.
  destruct (connect w (nwcUri p) s) as [[[]|e|] s1] eqn:Hc.
  - destruct (manager_getBalance w s1) as [[av|e|] s2] eqn:Hb.
    + destruct (gt_opt (or_zero (inv_satoshi inv)) av) eqn:Hg; [discriminate |].
      inversion H; subst. eexists. split; [reflexivity |].
      left. exists s1. repeat split; try reflexivity; assumption.
    + inversion H; subst. eexists. split; [reflexivity |].
      right. split; [reflexivity |]. right. exists s1, e. split; [reflexivity | assumption].
    + discriminate.
  - inversion H; subst. eexists. split; [reflexivity |].
    right. split; [reflexivity |]. left. exists e. reflexivity.
  - discriminate.
Qed.

(** X5. A successful [precheck] reports the decoded invoice: its payment hash
    and its amount, which is not zero and equals the expected amount when one
    was given; an expiry that is absent (0) or not yet passed; and, when the
    wallet's balance could be read, a balance that covers the amount. *)
Theorem precheck_success_reports_invoice w p s d s' :
  precheck w p s = (Ret (Succeed d), s') ->
  exists inv,
    decode w (paymentRequest p) = inr inv
    /\ ps_invoiceValid d = true
    /\ ps_paymentHash d = inv_paymentHash inv
    /\ ps_amountSat d = or_zero (inv_satoshi inv)
    /\ ps_amountSat d <> 0
    /\ (forall e, expectedAmountSat p = Some e -> e <> 0 -> ps_amountSat d = e)
    /\ (ps_expiresAt d = 0 \/ now_ms w <= ps_expiresAt d)
    /\ (forall l, ps_availableLiquidity d = Some l -> ps_amountSat d <= l)
    /\ ps_estimatedFee d = Some (fee_estimate w (ps_amountSat d)).
Proof.
  intros H. destruct (precheck_succeed_inv _ _ _ _ _ H)
    as [inv [Hd [Hexp [Hmis [Hnz [liq [-> Hliq]]]]]]].
  exists inv. cbn. repeat split; try assumption; try reflexivity.
  - intros e He Hne. rewrite He in Hmis.
    apply andb_false_iff in Hmis. destruct Hmis as [Ht | Heq].
    + unfold truthy_num in Ht. apply negb_false_iff, Z.eqb_eq in Ht. contradiction.
    + apply negb_false_iff, Z.eqb_eq in Heq. exact Heq.
  - apply andb_false_iff in Hexp. destruct Hexp as [Ht | Hlt].
    + left. unfold truthy_num in Ht. apply negb_false_iff, Z.eqb_eq in Ht. exact Ht.
    + right. apply Z.ltb_ge. exact Hlt.
  - intros l Hl. subst liq.
    destruct Hliq as [[s1 [_ [_ Hg]]] | [Hn _]]; [| discriminate].
    cbn in Hg. apply Z.ltb_ge. exact Hg.
Qed.

(** [precheck] leaves the payments of the log as they are. *)
Lemma precheck_payments_frame w p s :
  payments (snd (precheck w p s)) = payments s.
Proof.
  unfold precheck, try_catch at 1.
  destruct (decode w (paymentRequest p)) as [e|inv]; [reflexivity |].
  destruct (truthy_num (or_zero (inv_expiryDate inv))
            && (or_zero (inv_expiryDate inv) <? now_ms w)); [reflexivity |].
  match goal with
  | |- context [if ?c then _ else _] => destruct c
  end; [reflexivity |].
  match goal with
  | |- context [if ?c then _ else _] => destruct c
  end; [reflexivity |].
  unfold try_catch, bind, ret.
  pose proof (connect_frame w (nwcUri p) s) as [_ Hc].
  destruct (connect w (nwcUri p) s) as [[[]|e|] s1]; cbn [snd] in Hc.
  - pose proof (manager_getBalance_frame w s1) as [_ Hb].
    destruct (manager_getBalance w s1) as [[av|e|] s2]; cbn [snd] in Hb.
    + destruct (gt_opt (or_zero (inv_satoshi inv)) av); cbn [snd]; congruence.
    + cbn [snd]. congruence.
    + cbn [snd]. congruence.
  - cbn [snd]. exact Hc.
  - cbn [snd]. exact Hc.
Qed.

(** X6. [precheck] never pays and never arms the payment timer: the pay
    operations and timers in the log of calls are those that were there
    before. *)
Theorem precheck_never_pays w p s s' :
  snd (precheck w p s) = s' ->
  List.filter is_payment (calls s') = List.filter is_payment (calls s).
Proof. intros <-. exact (precheck_payments_frame w p s). Qed.

(** X7. The liquidity check is best effort. For an invoice that passed the
    checks on expiry and amount: a wallet that cannot be connected, or whose
    balance cannot be read, does not make [precheck] fail - it succeeds
    without [availableLiquidity]; a balance that was read and is below the
    amount makes it fail with [INSUFFICIENT_LIQUIDITY]. *)
Theorem precheck_liquidity_best_effort w p s inv :
  decode w (paymentRequest p) = inr inv ->
  or_zero (inv_expiryDate inv) = 0 \/ now_ms w <= or_zero (inv_expiryDate inv) ->
  or_zero (inv_satoshi inv) <> 0 ->
  expectedAmountSat p = None \/ expectedAmountSat p = Some (or_zero (inv_satoshi inv)) ->
  ((exists e, fst (connect w (nwcUri p) s) = Throw e)
   \/ (exists s1 e, connect w (nwcUri p) s = (Ret tt, s1)
                    /\ fst (manager_getBalance w s1) = Throw e) ->
   fst (precheck w p s) =
   Ret (Succeed (mkPrecheckSuccess true (inv_paymentHash inv) (or_zero (inv_satoshi inv))
                   "unknown" (or_empty (inv_description inv)) (or_zero (inv_expiryDate inv))
                   None (Some (fee_estimate w (or_zero (inv_satoshi inv)))))))
  /\ (forall s1 l,
         connect w (nwcUri p) s = (Ret tt, s1) ->
         fst (manager_getBalance w s1) = Ret (Some l) ->
         l < or_zero (inv_satoshi inv) ->
         exists msg, fst (precheck w p s) = Ret (Fail (mkPrecheckFail msg INSUFFICIENT_LIQUIDITY))).
Proof.
  intros Hd Hu Hnz He.
  assert (Hmis : match expectedAmountSat p with
                 | Some e => truthy_num e && negb (or_zero (inv_satoshi inv) =? e)
                 | None => false
                 end = false).
  { destruct He as [-> | ->]; [reflexivity |].
    rewrite Z.eqb_refl. apply andb_false_r. }
  assert (Hz : (or_zero (inv_satoshi inv) =? 0) = false) by (apply Z.eqb_neq; exact Hnz).
  split.
  - intros Hfail. unfold precheck. rewrite Hd, (unexpired_test w inv Hu), Hmis.
    unfold truthy_num at 1. rewrite Hz. cbn [negb orb].
    unfold try_catch, bind, ret.
    destruct Hfail as [[e Hc] | [s1 [e [Hc Hb]]]].
    + destruct (connect w (nwcUri p) s) as [r s1]. cbn in Hc. subst r. reflexivity.
    + rewrite Hc. destruct (manager_getBalance w s1) as [r s2]. cbn in Hb. subst r.
      reflexivity.
  - intros s1 l Hc Hb Hlt. eexists. unfold precheck.
    rewrite Hd, (unexpired_test w inv Hu), Hmis.
    unfold truthy_num at 1. rewrite Hz. cbn [negb orb].
    unfold try_catch, bind, ret.
    rewrite Hc. destruct (manager_getBalance w s1) as [r s2]. cbn in Hb. subst r.
    assert (Hg : gt_opt (or_zero (inv_satoshi inv)) (Some l) = true)
      by (cbn; apply Z.ltb_lt; exact Hlt).
    rewrite Hg. reflexivity.
Qed.

(** X8. An invoice without amount never passes [precheck], and the wallet is
    not contacted for it: when it is not expired, the failure is
    [AMOUNT_MISMATCH] if a (non-zero) expected amount was given and
    [INVALID_INVOICE] otherwise. *)
Theorem precheck_rejects_amountless_invoice w p s inv :
  decode w (paymentRequest p) = inr inv ->
  or_zero (inv_satoshi inv) = 0 ->
  (exists f, precheck w p s = (Ret (Fail f), s))
  /\ (or_zero (inv_expiryDate inv) = 0 \/ now_ms w <= or_zero (inv_expiryDate inv) ->
      exists msg,
        precheck w p s =
        (Ret (Fail (mkPrecheckFail msg
                      (match expectedAmountSat p with
                       | Some e => if e =? 0 then INVALID_INVOICE else AMOUNT_MISMATCH
                       | None => INVALID_INVOICE
                       end))), s)).
Proof.
  intros Hd Hz.
  assert (Hun : or_zero (inv_expiryDate inv) = 0 \/ now_ms w <= or_zero (inv_expiryDate inv) ->
                exists msg,
                  precheck w p s =
                  (Ret (Fail (mkPrecheckFail msg
                                (match expectedAmountSat p with
                                 | Some e => if e =? 0 then INVALID_INVOICE else AMOUNT_MISMATCH
                                 | None => INVALID_INVOICE
                                 end))), s)).
  { intros Hu. unfold precheck. rewrite Hd, (unexpired_test w inv Hu), Hz.
    destruct (expectedAmountSat p) as [e|].
    - unfold truthy_num at 1. rewrite (Z.eqb_sym 0 e).
      destruct (e =? 0); cbn; eexists; reflexivity.
    - cbn. eexists. reflexivity. }
  split; [| exact Hun].
  destruct (truthy_num (or_zero (inv_expiryDate inv))
            && (or_zero (inv_expiryDate inv) <? now_ms w)) eqn:Hexp.
  - eexists. unfold precheck. rewrite Hd, Hexp. reflexivity.
  - assert (Hu : or_zero (inv_expiryDate inv) = 0 \/
                 now_ms w <= or_zero (inv_expiryDate inv)).
    { apply andb_false_iff in Hexp. destruct Hexp as [Ht | Hlt].
      - left. unfold truthy_num in Ht. apply negb_false_iff, Z.eqb_eq in Ht. exact Ht.
      - right. apply Z.ltb_ge. exact Hlt. }
    destruct (Hun Hu) as [msg Hm]. eexists. exact Hm.
Qed.

End PaymentMore.

Section SettlementMore.
Import Js LightningPayment ConnectionManager.

(** What [execute] answers when the wallet cannot be connected. *)
Lemma execute_connect_fails w p s inv r s1 :
  decode w (paymentRequest p) = inr inv ->
  connect w (nwcUri p) s = (r, s1) ->
  r <> Ret tt ->
  execute w p s =
  (match r with
   | Throw e =>
       Ret (Fail (mkExecuteFail ("Payment execution failed: " ++ message_or "Unknown error" e)
                    PAYMENT_FAILED (Some (inv_paymentHash inv))))
   | _ => Pending
   end, s1).
Proof.
  intros Hd Hc Hr. unfold execute, try_catch, new_Invoice. rewrite Hd.
  unfold bind at 1. unfold ret at 1. unfold bind at 1. rewrite Hc.
  destruct r as [[]|e|]; [contradiction | reflexivity | reflexivity].
Qed.

(** What [execute] answers when the invoice does not decode. *)
Lemma execute_undecodable w p s e :
  decode w (paymentRequest p) = inl e ->
  execute w p s =
  (Ret (Fail (mkExecuteFail ("Payment execution failed: " ++ message_or "Unknown error" e)
                PAYMENT_FAILED None)), s).
Proof.
  intros Hd. unfold execute, try_catch, new_Invoice, bind, throw. rewrite Hd. reflexivity.
Qed.

(** The log of [execute] once the wallet is connected: the pay operation,
    then the timer if there is one. *)
Lemma execute_after_connect_log w p s inv s1 :
  decode w (paymentRequest p) = inr inv ->
  connect w (nwcUri p) s = (Ret tt, s1) ->
  calls (snd (execute w p s)) =
  calls s1 ++ PayInvoice (paymentRequest p)
    :: (if truthy_num (or_zero (timeoutSeconds p))
        then [SetTimeout (or_zero (timeoutSeconds p) * 1000)] else []).
Proof.
  intros Hd Hc. destruct (connect_connected _ _ _ _ Hc) as [Hl Hi].
  unfold execute, try_catch, new_Invoice. rewrite Hd.
  unfold bind at 1. unfold ret at 1. unfold bind at 1. rewrite Hc.
  unfold bind at 1.
  destruct (truthy_num (or_zero (timeoutSeconds p))).
  - unfold race. rewrite (manager_payInvoice_connected w _ s1 Hl Hi).
    destruct (payInvoice w (paymentRequest p)) as [pre|e|]; cbn;
      try destruct (timer_wins w _); cbn;
      try (match goal with
           | |- context [if ?c then _ else _] => destruct c
           end; cbn);
      rewrite <- List.app_assoc; reflexivity.
  - rewrite (manager_payInvoice_connected w _ s1 Hl Hi).
    destruct (payInvoice w (paymentRequest p)) as [pre|e|]; cbn;
      try (match goal with
           | |- context [if ?c then _ else _] => destruct c
           end; cbn);
      reflexivity.
Qed.

(** X9. Every failure of [execute] carries [PAYMENT_FAILED], an error that
    starts with [Payment execution failed: ], and the payment hash of the
    invoice exactly when the invoice decodes. An invoice that does not decode
    fails before the wallet is contacted. *)
Theorem execute_failure_payload w p s f s' :
  execute w p s = (Ret (Fail f), s') ->
  ef_reason f = PAYMENT_FAILED
  /\ String.prefix "Payment execution failed: " (ef_error f) = true
  /\ ef_paymentHash f =
     match decode w (paymentRequest p) with
     | inr inv => Some (inv_paymentHash inv)
     | inl _ => None
     end
  /\ (forall e, decode w (paymentRequest p) = inl e -> s' = s).
Proof.
  intros H.
  destruct (decode w (paymentRequest p)) as [e|inv] eqn:Hd.
  - rewrite (execute_undecodable w p s e Hd) in H. inversion H; subst. cbn.
    repeat split; auto. destruct (message_or "Unknown error" e); reflexivity.
  - assert (Hf : ef_reason f = PAYMENT_FAILED
                 /\ String.prefix "Payment execution failed: " (ef_error f) = true
                 /\ ef_paymentHash f = Some (inv_paymentHash inv)).
    { destruct (connect w (nwcUri p) s) as [rc s1] eqn:Hc.
      destruct rc as [[]|e|].
      - pose proof (execute_after_connect w p s inv s1 Hd Hc) as Hfst.
        rewrite H in Hfst. cbn [fst] in Hfst.
        match type of Hfst with
        | _ = match ?x with _ => _ end => destruct x as [paymentResult|e|]
        end.
        + match type of Hfst with
          | _ = (if ?c then _ else _) => destruct c
          end; inversion Hfst; subst; cbn; repeat split.
        + inversion Hfst; subst; cbn; repeat split.
          destruct (message_or "Unknown error" e); reflexivity.
        + discriminate.
      - rewrite (execute_connect_fails w p s inv _ s1 Hd Hc) in H by discriminate.
        inversion H; subst; cbn; repeat split.
        destruct (message_or "Unknown error" e); reflexivity.
      - rewrite (execute_connect_fails w p s inv _ s1 Hd Hc) in H by discriminate.
        discriminate. }
    destruct Hf as [H1 [H2 H3]]. repeat split; try assumption.
    intros e He. discriminate.
Qed.

(** What a success of [execute] has gone through. *)
Lemma execute_success_inv w p s r s' :
  execute w p s = (Ret (Succeed r), s') ->
  exists inv,
    decode w (paymentRequest p) = inr inv
    /\ payInvoice w (paymentRequest p) = Ret (Some (es_preimage r))
    /\ String.length (es_preimage r) = 64%nat
    /\ es_paymentHash r = inv_paymentHash inv
    /\ es_amountSat r = or_zero (inv_satoshi inv)
    /\ es_feeSat r = 0
    /\ es_totalSat r = es_amountSat r
    /\ es_timestamp r = now_result_ms w
    /\ In (PayInvoice (paymentRequest p)) (calls s').
Proof.
  intros H.
  destruct (decode w (paymentRequest p)) as [e|inv] eqn:Hd.
  { revert H. unfold execute, try_catch, new_Invoice, bind. rewrite Hd. cbn. discriminate. }
  exists inv. split; [reflexivity |].
  destruct (connect w (nwcUri p) s) as [rc s1] eqn:Hc.
  assert (Hrc : rc = Ret tt).
  { destruct rc as [[]|e|]; [reflexivity | |];
      rewrite (execute_connect_fails w p s inv _ s1 Hd Hc) in H by discriminate;
      discriminate. }
  subst rc.
  pose proof (execute_after_connect w p s inv s1 Hd Hc) as Hfst.
  pose proof (execute_after_connect_log w p s inv s1 Hd Hc) as Hlog.
  rewrite H in Hfst, Hlog. cbn [fst snd] in Hfst, Hlog.
  destruct (connect_connected _ _ _ _ Hc) as [Hl Hi].
  rewrite (awaited_payment w p s1 Hl Hi) in Hfst.
  assert (Hin : In (PayInvoice (paymentRequest p)) (calls s')).
  { rewrite Hlog. apply List.in_or_app. right. left. reflexivity. }
  assert (Hres : forall pre,
             payInvoice w (paymentRequest p) = Ret pre ->
             Ret (Succeed r) =
             (if truthy_opt_string pre && Nat.eqb (String.length (or_empty pre)) 64
              then Ret (Succeed (mkExecuteSuccess (or_empty pre) (inv_paymentHash inv)
                                   (or_zero (inv_satoshi inv)) 0 (or_zero (inv_satoshi inv))
                                   (now_result_ms w) SUCCEEDED))
              else Ret (Fail (mkExecuteFail
                                ("Payment execution failed: Invalid preimage received: "
                                   ++ show_opt_string pre)
                                PAYMENT_FAILED (Some (inv_paymentHash inv))))) ->
             payInvoice w (paymentRequest p) = Ret (Some (es_preimage r))
             /\ String.length (es_preimage r) = 64%nat
             /\ es_paymentHash r = inv_paymentHash inv
             /\ es_amountSat r = or_zero (inv_satoshi inv)
             /\ es_feeSat r = 0
             /\ es_totalSat r = es_amountSat r
             /\ es_timestamp r = now_result_ms w).
  { intros pre Hp Heq.
    destruct pre as [pre|]; cbn in Heq; [| discriminate].
    destruct (truthy_string pre); cbn in Heq; [| discriminate].
    destruct (Nat.eqb (String.length pre) 64) eqn:Hlen; [| discriminate].
    inversion Heq; subst. cbn. apply Nat.eqb_eq in Hlen.
    repeat split; assumption. }
  destruct (payInvoice w (paymentRequest p)) as [pre|e|] eqn:Hp.
  - destruct (truthy_num (or_zero (timeoutSeconds p))).
    + destruct (timer_wins w _); [discriminate |].
      cbn [pr_preimage pr_amount truthy_num Z.eqb negb] in Hfst.
      rewrite Z.ltb_irrefl in Hfst.
      destruct (Hres pre eq_refl Hfst) as [H1 H2].
      split; [exact H1 |]. repeat split; try apply H2. exact Hin.
    + cbn [pr_preimage pr_amount truthy_num Z.eqb negb] in Hfst.
      rewrite Z.ltb_irrefl in Hfst.
      destruct (Hres pre eq_refl Hfst) as [H1 H2].
      split; [exact H1 |]. repeat split; try apply H2. exact Hin.
  - destruct (truthy_num (or_zero (timeoutSeconds p)));
      [destruct (timer_wins w _) |]; discriminate.
  - destruct (truthy_num (or_zero (timeoutSeconds p))); discriminate.
Qed.

(** X10. A success of [execute] hands out the preimage the wallet answered,
    of 64 characters, with the payment hash and the amount of the decoded
    invoice; the fee it reports is always 0 and the total is the invoice
    amount, since the manager reports no paid amount; and the pay operation
    was called with the payment request. *)
Theorem execute_success_payload w p s r s' :
  execute w p s = (Ret (Succeed r), s') ->
  exists inv,
    decode w (paymentRequest p) = inr inv
    /\ payInvoice w (paymentRequest p) = Ret (Some (es_preimage r))
    /\ String.length (es_preimage r) = 64%nat
    /\ es_paymentHash r = inv_paymentHash inv
    /\ es_amountSat r = or_zero (inv_satoshi inv)
    /\ es_feeSat r = 0
    /\ es_totalSat r = es_amountSat r
    /\ es_timestamp r = now_result_ms w
    /\ In (PayInvoice (paymentRequest p)) (calls s').
Proof. exact (execute_success_inv w p s r s'). Qed.

(** X11. [execute] enforces neither [maxFeesat] nor [expectedAmountSat]:
    two calls that agree on the payment request, the timeout and the
    descriptor end alike, whatever these two parameters are. *)
Theorem execute_ignores_fee_and_amount_limits w p p' s :
  paymentRequest p = paymentRequest p' ->
  timeoutSeconds p = timeoutSeconds p' ->
  nwcUri p = nwcUri p' ->
  execute w p s = execute w p' s.
Proof.
  destruct p as [pr fee t u e], p' as [pr' fee' t' u' e']. cbn.
  intros -> -> ->. reflexivity.
Qed.


End SettlementMore.

(** ** The usage examples *)

Section ExamplesFacts.
Import Examples.

(** Rounding to 53 bits loses less than one part in [2^52] and keeps the
    sign. *)
Lemma round53_close P :
  0 <= P -> 0 <= round53 P /\ 2 ^ 52 * (P - round53 P) <= P.
Proof.
  intros HP. unfold round53.
  destruct (Z.log2 P + 1 <=? 53) eqn:Hn; [split; lia |].
  apply Z.leb_gt in Hn.
  set (k := Z.log2 P + 1 - 53) in *.
  assert (Hk : 0 < k) by lia.
  assert (HP0 : 0 < P).
  { destruct (Z.eq_dec P 0) as [-> | ]; [cbn in Hn; lia | lia]. }
  pose proof (Z.log2_spec P HP0) as [Hlo _].
  assert (Hpow : 2 ^ (Z.log2 P) = 2 ^ 52 * 2 ^ k).
  { rewrite <- Z.pow_add_r by lia. f_equal. unfold k. lia. }
  assert (H2k : 0 < 2 ^ k) by (apply Z.pow_pos_nonneg; lia).
  rewrite !Z.shiftl_mul_pow2, Z.shiftr_div_pow2 by lia.
  pose proof (Z.div_mod P (2 ^ k) ltac:(lia)) as Hdm.
  pose proof (Z.mod_pos_bound P (2 ^ k) H2k) as Hmod.
  assert (Hq : 0 <= P / 2 ^ k) by (apply Z.div_pos; lia).
  match goal with
  | |- context [if ?c then _ else _] => destruct c
  end.
  - split; [nia |]. nia.
  - split; [nia |]. nia.
Qed.

(** X13. [calculateMaxFee] stays between the base fee and the cap for every
    non-negative amount, and it is the cap itself from 98 901 sat on. *)
Theorem calculateMaxFee_bounds amountSat :
  0 <= amountSat ->
  10 <= calculateMaxFee amountSat <= 1000
  /\ (98901 <= amountSat -> calculateMaxFee amountSat = 1000).
Proof.
  intros Ha. unfold calculateMaxFee, ceil_cent, cent_scale, cent_mantissa.
  rewrite Z.abs_eq by lia.
  destruct (round53_close (amountSat * 5764607523034235) ltac:(lia)) as [Hr0 Hr].
  set (r := round53 (amountSat * 5764607523034235)) in *.
  assert (Hs : 0 <= Z.sgn amountSat * r).
  { destruct (Z.eq_dec amountSat 0) as [-> | Hne]; [cbn; lia |].
    rewrite Z.sgn_pos by lia. lia. }
  assert (Hc : 0 <= - (- (Z.sgn amountSat * r) / 2 ^ 59)).
  { assert (- (Z.sgn amountSat * r) / 2 ^ 59 <= 0); [| lia].
    apply Z.div_le_upper_bound; lia. }
  split; [lia |].
  intros Hbig. rewrite Z.sgn_pos in * by lia.
  assert (Hlt : - (1 * r) / 2 ^ 59 < -989).
  { apply Z.div_lt_upper_bound; [lia |].
    change (2 ^ 59) with 576460752303423488.
    change (2 ^ 52) with 4503599627370496 in Hr. lia. }
  lia.
Qed.

End ExamplesFacts.

(** ** More on the Lock Step *)

Section LockMore.
Import Js HederaHTLC.

(** X16. [getHederaNetwork] knows exactly the chains 295, 296 and 297: the
    network it returns carries the chain id that was asked for, and any other
    chain id throws an error whose message starts with
    [Unsupported Hedera chain ID: ]; for a safe integer, what follows is the
    chain id in decimal digits. *)
Theorem getHederaNetwork_known_chains c :
  (forall n, getHederaNetwork c = inr n ->
             net_chainId n = c /\ (c = 295 \/ c = 296 \/ c = 297))
  /\ (c <> 295 -> c <> 296 -> c <> 297 ->
      exists msg,
        getHederaNetwork c = inl (ErrorObj msg)
        /\ String.prefix "Unsupported Hedera chain ID: " msg = true
        /\ (isSafeInteger c ->
            msg = ("Unsupported Hedera chain ID: " ++ num_to_string c)%string)).
Proof.
  unfold getHederaNetwork. split.
  - intros n.
    destruct (c =? 295) eqn:H1; [apply Z.eqb_eq in H1; intros H; inversion H; subst; cbn; auto |].
    destruct (c =? 296) eqn:H2; [apply Z.eqb_eq in H2; intros H; inversion H; subst; cbn; auto |].
    destruct (c =? 297) eqn:H3; [apply Z.eqb_eq in H3; intros H; inversion H; subst; cbn; auto |].
    discriminate.
  - intros H1 H2 H3.
    apply Z.eqb_neq in H1, H2, H3. rewrite H1, H2, H3.
    eexists. split; [reflexivity | split].
    + cbn. destruct (num_to_string c); reflexivity.
    + intros _. reflexivity.
Qed.

(** What a successful [precheck] has gone through. *)
Lemma lock_precheck_succeed_inv w d p s r s' :
  precheck w d p s = (Ret (Succeed r), s') ->
  (exists n, getHederaNetwork (chainId p) = inr n)
  /\ bytes32_test (paymentHash p) = true
  /\ now_seconds w < timelock p
  /\ exists balance needed allowed gas,
      balanceOf w (tokenAddress p) (ethAddress d) = Ret balance
      /\ bigNumber_from w (amount p) = inr needed
      /\ needed <= balance
      /\ allowance w (tokenAddress p) (ethAddress d) (htlcContractAddress p) = Ret allowed
      /\ estimateGas_createHTLCToken w (htlcContractAddress p)
           (mkCreateArgs (paymentHash p) (timelock p) (tokenAddress p) (amount p))
           (ethAddress d) = Ret gas
      /\ r = mkPrecheckSuccess (needed <=? allowed) true (num_to_string balance)
               (num_to_string gas)
      /\ s' = s ++ [BalanceOf (tokenAddress p) (ethAddress d);
                    Allowance (tokenAddress p) (ethAddress d) (htlcContractAddress p);
                    EstimateGasCreate (htlcContractAddress p)
                      (mkCreateArgs (paymentHash p) (timelock p) (tokenAddress p) (amount p))
                      (ethAddress d)].
Proof.
  unfold precheck, try_catch, bind, call, pure_or_throw, modify, lift, throw, ret.
  destruct (getHederaNetwork (chainId p)) as [e|n]; [discriminate |].
  destruct (bytes32_test (paymentHash p)); cbn [negb]; [| discriminate].
  destruct (timelock p <=? now_seconds w) eqn:Htl; [discriminate |].
  apply Z.leb_gt in Htl. cbn.
  destruct (balanceOf w (tokenAddress p) (ethAddress d)) as [balance|e|]; cbn;
    try discriminate.
  destruct (bigNumber_from w (amount p)) as [e|needed]; cbn; [discriminate |].
  destruct (balance <? needed) eqn:Hb; cbn; [discriminate |].
  apply Z.ltb_ge in Hb.
  destruct (allowance w (tokenAddress p) (ethAddress d) (htlcContractAddress p))
    as [allowed|e|]; cbn; try discriminate.
  destruct (estimateGas_createHTLCToken w (htlcContractAddress p) _ (ethAddress d))
    as [gas|e|] eqn:Hg; cbn; try discriminate.
  intros H. inversion H; subst.
  split; [eexists; reflexivity |]. split; [reflexivity |]. split; [exact Htl |].
  exists balance, needed, allowed, gas.
  repeat split; try reflexivity; try assumption.
  rewrite <- !List.app_assoc. reflexivity.
Qed.

(** X17. A successful Lock [precheck] has established a supported chain, a
    well-formed payment hash, a timelock in the future and a balance that
    covers the amount; it reports that balance and the gas estimate, and
    [hasAllowance] tells whether the allowance covers the amount. Its calls
    to the ledger are the three reads, in this order: balance, allowance, gas
    estimate. *)
Theorem lock_precheck_success w d p s r s' :
  precheck w d p s = (Ret (Succeed r), s') ->
  (chainId p = 295 \/ chainId p = 296 \/ chainId p = 297)
  /\ bytes32_test (paymentHash p) = true
  /\ now_seconds w < timelock p
  /\ ps_hasBalance r = true
  /\ exists balance needed allowed gas,
      balanceOf w (tokenAddress p) (ethAddress d) = Ret balance
      /\ bigNumber_from w (amount p) = inr needed
      /\ needed <= balance
      /\ allowance w (tokenAddress p) (ethAddress d) (htlcContractAddress p) = Ret allowed
      /\ (ps_hasAllowance r = true <-> needed <= allowed)
      /\ ps_availableBalance r = num_to_string balance
      /\ ps_estimatedGas r = num_to_string gas
      /\ s' = s ++ [BalanceOf (tokenAddress p) (ethAddress d);
                    Allowance (tokenAddress p) (ethAddress d) (htlcContractAddress p);
                    EstimateGasCreate (htlcContractAddress p)
                      (mkCreateArgs (paymentHash p) (timelock p) (tokenAddress p) (amount p))
                      (ethAddress d)].
Proof.
  intros H.
  destruct (lock_precheck_succeed_inv _ _ _ _ _ _ H)
    as [[n Hn] [Hh [Ht [balance [needed [allowed [gas [Hb [Hbn [Hle [Ha [Hg [-> ->]]]]]]]]]]]]].
  split.
  { revert Hn. unfold getHederaNetwork.
    destruct (chainId p =? 295) eqn:H1; [apply Z.eqb_eq in H1; auto |].
    destruct (chainId p =? 296) eqn:H2; [apply Z.eqb_eq in H2; auto |].
    destruct (chainId p =? 297) eqn:H3; [apply Z.eqb_eq in H3; auto |].
    discriminate. }
  split; [exact Hh |]. split; [exact Ht |]. split; [reflexivity |].
  exists balance, needed, allowed, gas. cbn.
  repeat split; try assumption; try reflexivity.
  - apply Z.leb_le.
  - apply Z.leb_le.
Qed.

(** X18. A balance below the amount makes the Lock [precheck] fail with
    [INSUFFICIENT_BALANCE] after the balance read alone: neither the allowance
    nor the gas estimate is asked for. An allowance below the amount is not a
    failure: [precheck] succeeds with [hasAllowance = false]. *)
Theorem lock_precheck_balance_and_allowance w d p s balance needed :
  (chainId p = 295 \/ chainId p = 296 \/ chainId p = 297) ->
  bytes32_test (paymentHash p) = true ->
  now_seconds w < timelock p ->
  balanceOf w (tokenAddress p) (ethAddress d) = Ret balance ->
  bigNumber_from w (amount p) = inr needed ->
  (balance < needed ->
   precheck w d p s =
   (Ret (Fail (mkFailure
                 ("Insufficient token balance. Have: " ++ num_to_string balance
                    ++ ", Need: " ++ amount p)
                 INSUFFICIENT_BALANCE)),
    s ++ [BalanceOf (tokenAddress p) (ethAddress d)]))
  /\ (forall allowed gas,
         needed <= balance ->
         allowance w (tokenAddress p) (ethAddress d) (htlcContractAddress p) = Ret allowed ->
         estimateGas_createHTLCToken w (htlcContractAddress p)
           (mkCreateArgs (paymentHash p) (timelock p) (tokenAddress p) (amount p))
           (ethAddress d) = Ret gas ->
         allowed < needed ->
         fst (precheck w d p s) =
         Ret (Succeed (mkPrecheckSuccess false true (num_to_string balance)
                         (num_to_string gas)))).
Proof.
  intros Hchain Hh Ht Hb Hn.
  assert (Hnet : exists n, getHederaNetwork (chainId p) = inr n).
  { unfold getHederaNetwork.
    destruct Hchain as [-> | [-> | ->]]; cbn; eexists; reflexivity. }
  destruct Hnet as [n Hnet].
  assert (Htl : (timelock p <=? now_seconds w) = false) by (apply Z.leb_gt; exact Ht).
  split.
  - intros Hlt.
    unfold precheck, try_catch, bind, call, pure_or_throw, modify, lift, throw, ret.
    rewrite Hnet, Hh, Htl. cbn. rewrite Hb. cbn. rewrite Hn. cbn.
    assert (Hl : (balance <? needed) = true) by (apply Z.ltb_lt; exact Hlt).
    rewrite Hl. reflexivity.
  - intros allowed gas Hle Ha Hg Hlt.
    unfold precheck, try_catch, bind, call, pure_or_throw, modify, lift, throw, ret.
    rewrite Hnet, Hh, Htl. cbn. rewrite Hb. cbn. rewrite Hn. cbn.
    assert (Hl : (balance <? needed) = false) by (apply Z.ltb_ge; exact Hle).
    rewrite Hl. cbn. rewrite Ha. cbn. rewrite Hg. cbn.
    assert (Hal : (needed <=? allowed) = false) by (apply Z.leb_gt; exact Hlt).
    rewrite Hal. reflexivity.
Qed.

(** X19. The failures of the Lock Step: [precheck] fails with
    [CONTRACT_ERROR], [INVALID_PAYMENT_HASH], [INVALID_TIMELOCK] or
    [INSUFFICIENT_BALANCE] and nothing else; [execute] fails with
    [TRANSACTION_FAILED] and nothing else. *)
Theorem lock_failure_reasons w d p s f :
  (fst (precheck w d p s) = Ret (Fail f) ->
   f_reason f = CONTRACT_ERROR \/ f_reason f = INVALID_PAYMENT_HASH
   \/ f_reason f = INVALID_TIMELOCK \/ f_reason f = INSUFFICIENT_BALANCE)
  /\ (fst (execute w d p s) = Ret (Fail f) -> f_reason f = TRANSACTION_FAILED).
Proof.
  split.
  - unfold precheck, try_catch, bind, call, pure_or_throw, modify, lift, throw, ret.
    destruct (getHederaNetwork (chainId p)) as [e|n];
      [intros H; inversion H; subst; cbn; auto |].
    destruct (negb (bytes32_test (paymentHash p)));
      [intros H; inversion H; subst; cbn; auto |].
    destruct (timelock p <=? now_seconds w);
      [intros H; inversion H; subst; cbn; auto |].
    cbn.
    destruct (balanceOf w (tokenAddress p) (ethAddress d)) as [balance|e|]; cbn;
      try (intros H; inversion H; subst; cbn; auto; fail).
    destruct (bigNumber_from w (amount p)) as [e|needed]; cbn;
      try (intros H; inversion H; subst; cbn; auto; fail).
    destruct (balance <? needed); cbn;
      try (intros H; inversion H; subst; cbn; auto 6; fail).
    destruct (allowance w (tokenAddress p) (ethAddress d) (htlcContractAddress p))
      as [allowed|e|]; cbn;
      try (intros H; inversion H; subst; cbn; auto; fail).
    destruct (estimateGas_createHTLCToken w (htlcContractAddress p) _ (ethAddress d))
      as [gas|e|]; cbn; intros H; inversion H; subst; cbn; auto.
  - unfold execute, try_catch, bind, call, pure_or_throw, modify, lift, throw_error,
      throw, ret.
    destruct (encodeFunctionData w _) as [e|data]; cbn;
      [intros H; inversion H; subst; reflexivity |].
    destruct (getTransactionCount w _) as [nonce|e|]; cbn;
      try (intros H; inversion H; subst; reflexivity).
    destruct (getGasPrice w) as [gasPrice|e|]; cbn;
      try (intros H; inversion H; subst; reflexivity).
    destruct (estimateGas w _ _ _) as [gas|e|]; cbn;
      try (intros H; inversion H; subst; reflexivity).
    destruct (contractCall w _ _ _ _ _) as [txHash|e|]; cbn;
      try (intros H; inversion H; subst; reflexivity).
    destruct (solidityKeccak256 w _) as [e|contractId]; cbn;
      try (intros H; inversion H; subst; reflexivity).
    destruct (waitForTransaction w txHash) as [[rc|]|e|]; cbn;
      try (intros H; inversion H; subst; reflexivity).
    destruct (status rc =? 0); cbn; intros H; inversion H; subst; reflexivity.
Qed.

(** X20. [execute] submits the lock-creation call only after its four
    preparatory steps have all answered: if a log without submission ends up
    with one, the call data was encoded and the nonce, the gas price and the
    gas estimate were read. *)
Theorem lock_execute_submits_only_after_preparation w d p s :
  submitted s = false ->
  submitted (snd (execute w d p s)) = true ->
  exists data nonce gasPrice gas,
    encodeFunctionData w (mkCreateArgs (paymentHash p) (timelock p) (tokenAddress p) (amount p))
    = inr data
    /\ getTransactionCount w (ethAddress d) = Ret nonce
    /\ getGasPrice w = Ret gasPrice
    /\ estimateGas w (ethAddress d) (htlcContractAddress p) data = Ret gas.
Proof.
  intros Hs. unfold submitted in *.
  unfold execute, try_catch, bind, call, pure_or_throw, modify, lift, throw_error, throw, ret.
  destruct (encodeFunctionData w _) as [e|data] eqn:He; cbn; [intros H; congruence |].
  destruct (getTransactionCount w _) as [nonce|e|] eqn:Hn; cbn;
    try (rewrite !List.existsb_app, Hs; cbn; discriminate).
  destruct (getGasPrice w) as [gasPrice|e|] eqn:Hp; cbn;
    try (rewrite !List.existsb_app, Hs; cbn; discriminate).
  destruct (estimateGas w _ _ _) as [gas|e|] eqn:Hg; cbn;
    try (rewrite !List.existsb_app, Hs; cbn; discriminate).
  intros _. exists data, nonce, gasPrice, gas. repeat split; assumption.
Qed.

End LockMore.

Section LockExecuteMore.
Import Js HederaHTLC.

(** X21. A success of the Lock [execute] echoes the payment hash, the amount
    and the timelock of its parameters, and reports the transaction hash of
    the broadcast and the block of a receipt whose status is not 0. Its calls
    are, in order: nonce, gas price, gas estimate, one [createHTLCToken]
    broadcast with the parameters' arguments on behalf of the delegator, and
    the wait for one confirmation of that transaction. *)
Theorem lock_execute_success w d p s r s' :
  execute w d p s = (Ret (Succeed r), s') ->
  es_paymentHash r = paymentHash p
  /\ es_amount r = amount p
  /\ es_timelock r = timelock p
  /\ exists data receipt,
      encodeFunctionData w (mkCreateArgs (paymentHash p) (timelock p) (tokenAddress p)
                              (amount p)) = inr data
      /\ contractCall w (htlcContractAddress p)
           (mkCreateArgs (paymentHash p) (timelock p) (tokenAddress p) (amount p))
           (ethAddress d) (publicKey d) (chainId p) = Ret (es_txHash r)
      /\ waitForTransaction w (es_txHash r) = Ret (Some receipt)
      /\ status receipt <> 0
      /\ es_blockNumber r = blockNumber receipt
      /\ s' = s ++ lock_execute_log d p data (es_txHash r).
Proof.
  unfold execute, try_catch, bind, call, pure_or_throw, modify, lift, throw_error, throw, ret.
  destruct (encodeFunctionData w _) as [e|data] eqn:He; cbn; [discriminate |].
  destruct (getTransactionCount w _) as [nonce|e|]; cbn; try discriminate.
  destruct (getGasPrice w) as [gasPrice|e|]; cbn; try discriminate.
  destruct (estimateGas w _ _ _) as [gas|e|]; cbn; try discriminate.
  destruct (contractCall w _ _ _ _ _) as [txHash|e|] eqn:Hc; cbn; try discriminate.
  destruct (solidityKeccak256 w _) as [e|contractId]; cbn; [discriminate |].
  destruct (waitForTransaction w txHash) as [[rc|]|e|] eqn:Hw; cbn; try discriminate.
  destruct (status rc =? 0) eqn:Hst; cbn; [discriminate |].
  intros H. inversion H; subst. cbn.
  repeat split.
  exists data, rc. repeat split; try assumption; try reflexivity.
  - apply Z.eqb_neq. exact Hst.
  - unfold lock_execute_log. rewrite <- !List.app_assoc. reflexivity.
Qed.

(** X22. A transaction that was broadcast and whose receipt is missing or
    has status 0 makes [execute] fail with [TRANSACTION_FAILED] and the error
    [Transaction failed on-chain]; the lock-creation call has been submitted
    all the same. *)
Theorem lock_execute_failed_receipt w d p s data nonce gasPrice gas txHash contractId receipt :
  encodeFunctionData w (mkCreateArgs (paymentHash p) (timelock p) (tokenAddress p) (amount p))
  = inr data ->
  getTransactionCount w (ethAddress d) = Ret nonce ->
  getGasPrice w = Ret gasPrice ->
  estimateGas w (ethAddress d) (htlcContractAddress p) data = Ret gas ->
  contractCall w (htlcContractAddress p)
    (mkCreateArgs (paymentHash p) (timelock p) (tokenAddress p) (amount p))
    (ethAddress d) (publicKey d) (chainId p) = Ret txHash ->
  solidityKeccak256 w
    (mkPackedArgs (ethAddress d) (tokenAddress p) (amount p) (paymentHash p) (timelock p)
       (now_seconds w)) = inr contractId ->
  waitForTransaction w txHash = Ret receipt ->
  match receipt with
  | None => True
  | Some rc => status rc = 0
  end ->
  execute w d p s =
  (Ret (Fail (mkFailure "Transaction failed on-chain" TRANSACTION_FAILED)),
   s ++ lock_execute_log d p data txHash)
  /\ submitted (s ++ lock_execute_log d p data txHash) = true.
Proof.
  intros He Hn Hg Hest Hc Hk Hw Hr. split.
  - unfold execute, try_catch, bind, call, pure_or_throw, modify, lift, throw_error,
      throw, ret.
    rewrite He. cbn. rewrite Hn. cbn. rewrite Hg. cbn. rewrite Hest. cbn.
    rewrite Hc. cbn. rewrite Hk. cbn. rewrite Hw. cbn.
    unfold lock_execute_log. rewrite <- !List.app_assoc. cbn.
    destruct receipt as [rc|]; [rewrite Hr |]; reflexivity.
  - unfold submitted, lock_execute_log. rewrite List.existsb_app. cbn.
    apply orb_true_r.
Qed.

End LockExecuteMore.

(** ** Payment hashes across the abilities *)

Section HashFormats.
Import Js.

(** [/^0x[a-fA-F0-9]{64}$/] accepts [0x] followed by 64 hexadecimal
    characters and nothing else. *)
Lemma bytes32_test_spec s :
  bytes32_test s = true <-> exists r, s = ("0x" ++ r)%string /\ is_hex64 r.
Proof.
  unfold bytes32_test. split.
  - destruct s as [|a [|b r]];
      [discriminate | destruct a as [[] [] [] [] [] [] [] []]; discriminate |].
    destruct a as [[] [] [] [] [] [] [] []]; try discriminate.
    destruct b as [[] [] [] [] [] [] [] []]; try discriminate.
    intros H. exists r. split; [reflexivity |].
    apply hex64_test_spec. exact H.
  - intros [r [-> H]]. cbn. apply hex64_test_spec. exact H.
Qed.

(** A string of 64 hexadecimal characters does not start with [0x]. *)
Lemma hex64_not_bytes32 h : is_hex64 h -> bytes32_test h = false.
Proof.
  intros [Hl Hf]. destruct (bytes32_test h) eqn:Hb; [| reflexivity].
  apply bytes32_test_spec in Hb. destruct Hb as [r [-> [Hr _]]].
  cbn in Hl. lia.
Qed.

(** X23. The payment hash in the form the Lightning abilities decode it -
    64 hexadecimal characters - is not accepted by the Lock Step: on a
    supported chain its [precheck] fails with [INVALID_PAYMENT_HASH] without
    any ledger call. Prefixed with [0x], as the invoice ability returns it
    from [makeInvoice], it is never rejected for its format. *)
Theorem lock_precheck_hash_format w d p s h :
  is_hex64 h ->
  (HederaHTLC.chainId p = 295 \/ HederaHTLC.chainId p = 296 \/ HederaHTLC.chainId p = 297) ->
  (HederaHTLC.paymentHash p = h ->
   HederaHTLC.precheck w d p s =
   (Ret (Fail (HederaHTLC.mkFailure "Payment hash must be a 32-byte hex string (0x...)"
                 HederaHTLC.INVALID_PAYMENT_HASH)), s))
  /\ (HederaHTLC.paymentHash p = ("0x" ++ h)%string ->
      forall f, fst (HederaHTLC.precheck w d p s) = Ret (Fail f) ->
                HederaHTLC.f_reason f <> HederaHTLC.INVALID_PAYMENT_HASH).
Proof.
  intros Hh Hchain.
  assert (Hnet : exists n, HederaHTLC.getHederaNetwork (HederaHTLC.chainId p) = inr n).
  { unfold HederaHTLC.getHederaNetwork.
    destruct Hchain as [-> | [-> | ->]]; cbn; eexists; reflexivity. }
  destruct Hnet as [n Hnet].
  split.
  - intros Hp. unfold HederaHTLC.precheck. apply try_catch_Ret.
    rewrite Hnet, Hp, (hex64_not_bytes32 h Hh). reflexivity.
  - intros Hp f.
    assert (Hb : bytes32_test (HederaHTLC.paymentHash p) = true).
    { apply bytes32_test_spec. exists h. split; assumption. }
    unfold HederaHTLC.precheck, try_catch, bind, HederaHTLC.call, HederaHTLC.pure_or_throw,
      modify, lift, throw, ret.
    rewrite Hnet, Hb. cbn [negb].
    destruct (HederaHTLC.timelock p <=? HederaHTLC.now_seconds w);
      [intros H; inversion H; subst; cbn; discriminate |].
    cbn.
    destruct (HederaHTLC.balanceOf w _ _) as [balance|e|]; cbn;
      try (intros H; inversion H; subst; cbn; discriminate).
    destruct (HederaHTLC.bigNumber_from w _) as [e|needed]; cbn;
      try (intros H; inversion H; subst; cbn; discriminate).
    destruct (balance <? needed); cbn;
      try (intros H; inversion H; subst; cbn; discriminate).
    destruct (HederaHTLC.allowance w _ _ _) as [allowed|e|]; cbn;
      try (intros H; inversion H; subst; cbn; discriminate).
    destruct (HederaHTLC.estimateGas_createHTLCToken w _ _ _) as [gas|e|]; cbn;
      intros H; inversion H; subst; cbn; discriminate.
Qed.

End HashFormats.

(** ** More on the Invoice Commitment Step *)

Section InvoiceMore.
Import Js LightningInvoice.

(** X24. Where the arithmetic of [execute] is exact - the amount in
    millisatoshi, the clock and the expiry date are safe integers - a success
    of the invoice [execute] echoes the requested amount, dates the expiry
    from its own clock ([floor(now / 1000) + expirySec], whatever the invoice
    says) and reports the memo it sent. The invoice comes from exactly one of
    two paths: the Lightning Address one, when [lud16] or else the wallet's
    alias contains an [@] - the payment hash is then handed out as the address
    service gave it - or [makeInvoice], called with the amount in
    millisatoshi - the payment hash is then prefixed with [0x]. *)
Theorem invoice_execute_success w p s r s' :
  isSafeInteger (amountSat p * 1000) ->
  isSafeInteger (now_ms w) ->
  isSafeInteger (now_ms w / 1000 + expirySec p) ->
  execute w p s = (Ret (Succeed r), s') ->
  es_amountSat r = amountSat p
  /\ es_expiresAt r = now_ms w / 1000 + expirySec p
  /\ es_description r = memo p
  /\ exists u info,
      url_parse w (nwcUri p) = inr u
      /\ protocol u = "nostr+walletconnect:"
      /\ getInfo w = Ret info
      /\ ((truthy_opt_string (or_string (searchParams_get u "lud16") (alias info))
           && includes_char (or_empty (or_string (searchParams_get u "lud16") (alias info))) "@"
           = true
           /\ exists invoice,
               requestInvoice w (or_empty (or_string (searchParams_get u "lud16") (alias info)))
                 (amountSat p) (memo p) = Ret invoice
               /\ es_paymentRequest r = li_paymentRequest invoice
               /\ es_paymentHash r = li_paymentHash invoice
               /\ s' = s ++ [NewClient (nwcUri p); GetInfo;
                             LnFetch (or_empty (or_string (searchParams_get u "lud16")
                                                   (alias info)));
                             RequestInvoice
                               (or_empty (or_string (searchParams_get u "lud16") (alias info)))
                               (amountSat p) (memo p)])
          \/ (truthy_opt_string (or_string (searchParams_get u "lud16") (alias info))
              && includes_char (or_empty (or_string (searchParams_get u "lud16") (alias info)))
                   "@"
              = false
              /\ exists response,
                  makeInvoice w (amountSat p * 1000) (memo p) = Ret response
                  /\ es_paymentRequest r = mi_invoice response
                  /\ es_paymentHash r = ("0x" ++ mi_payment_hash response)%string
                  /\ s' = s ++ [NewClient (nwcUri p); GetInfo;
                                MakeInvoice (amountSat p * 1000) (memo p)])).
Proof.
  intros _ _ _.
  unfold execute, try_catch, bind, call, pure_or_throw, modify, lift, throw_error, throw, ret,
    expiresAt.
  destruct (url_parse w (nwcUri p)) as [e|u] eqn:Hu; cbn; [discriminate |].
  destruct (String.eqb (protocol u) "nostr+walletconnect:") eqn:Hp; cbn; [| discriminate].
  apply String.eqb_eq in Hp.
  match goal with
  | |- context [if ?c then _ else _] => destruct c
  end; cbn; [discriminate |].
  destruct (new_client w (nwcUri p)) as [e|]; cbn; [discriminate |].
  destruct (getInfo w) as [info|e|] eqn:Hi; cbn; try discriminate.
  destruct (truthy_opt_string (or_string (searchParams_get u "lud16") (alias info))
            && includes_char (or_empty (or_string (searchParams_get u "lud16") (alias info)))
                 "@") eqn:Hpath; cbn.
  - destruct (ln_fetch w _) as [[]|e|]; cbn; try discriminate.
    destruct (requestInvoice w _ _ _) as [invoice|e|] eqn:Hr; cbn; try discriminate.
    intros H. inversion H; subst. cbn. repeat split.
    exists u, info. repeat split; try assumption.
    left. split; [exact Hpath |]. exists invoice. repeat split; try assumption.
    rewrite <- !List.app_assoc. reflexivity.
  - destruct (makeInvoice w _ _) as [response|e|] eqn:Hm; cbn; try discriminate.
    intros H. inversion H; subst. cbn. repeat split.
    exists u, info. repeat split; try assumption.
    right. split; [exact Hpath |]. exists response. repeat split; try assumption.
    rewrite <- !List.app_assoc. reflexivity.
Qed.

(** X25. On parameters that passed the schema of the invoice ability, the
    amount test of [precheck] cannot fire; an expiry below 60 seconds is
    reported with the reason [INVALID_AMOUNT]; and when the caller gave no
    expiry, the default of 86400 seconds leaves the descriptor's prefix as
    the only thing [precheck] can object to. *)
Theorem invoice_precheck_after_schema w raw p s :
  LightningInvoiceSchema.abilityParamsSchema raw = Some p ->
  (forall f, fst (precheck w p s) = Ret (Fail f) ->
             f_error f <> "Amount must be greater than 0")
  /\ (startsWith (nwcUri p) "nostr+walletconnect://" = true ->
      expirySec p < 60 ->
      precheck w p s =
      (Ret (Fail (mkFailure "Expiry must be at least 60 seconds" INVALID_AMOUNT)), s))
  /\ (LightningInvoiceSchema.raw_expirySec raw = None ->
      expirySec p = 86400
      /\ (startsWith (nwcUri p) "nostr+walletconnect://" = true ->
          precheck w p s = (Ret (Succeed (mkPrecheckSuccess (amountSat p) true 0)), s))).
Proof.
  intros Hs.
  assert (Ha : (amountSat p <=? 0) = false
               /\ (LightningInvoiceSchema.raw_expirySec raw = None -> expirySec p = 86400)).
  { revert Hs. unfold LightningInvoiceSchema.abilityParamsSchema.
    destruct (0 <? LightningInvoiceSchema.raw_amountSat raw) eqn:Hpos; [| discriminate].
    unfold LightningPayment.positive_default.
    destruct (LightningInvoiceSchema.raw_expirySec raw) as [e|].
    - destruct (0 <? e); [| discriminate].
      intros H. inversion H; subst. cbn.
      split; [apply Z.leb_gt, Z.ltb_lt; exact Hpos | discriminate].
    - intros H. inversion H; subst. cbn.
      split; [apply Z.leb_gt, Z.ltb_lt; exact Hpos | reflexivity]. }
  destruct Ha as [Ha He].
  split; [| split].
  - intros f. unfold precheck, try_catch, ret. rewrite Ha.
    destruct (negb (startsWith (nwcUri p) "nostr+walletconnect://"));
      [intros H; inversion H; subst; cbn; discriminate |].
    destruct (expirySec p <? 60); intros H; inversion H; subst; cbn; discriminate.
  - intros Hu Hlt. unfold precheck. apply try_catch_Ret. rewrite Ha, Hu.
    assert (Hl : (expirySec p <? 60) = true) by (apply Z.ltb_lt; exact Hlt).
    rewrite Hl. reflexivity.
  - intros Hn. split; [exact (He Hn) |].
    intros Hu. unfold precheck. apply try_catch_Ret. rewrite Ha, Hu, (He Hn). reflexivity.
Qed.

End InvoiceMore.

(** ** No exception crosses the ability boundary *)

Section NoEscape.
Import Js.

(** X26. None of the six ability bodies lets an exception out: whatever the
    parameters, the world and the state, [precheck] and [execute] of the
    payment, lock and invoice abilities end with [succeed], with [fail], or
    are still waiting. *)
Theorem ability_bodies_never_throw :
  (forall w p s e, fst (LightningPayment.precheck w p s) <> Throw e)
  /\ (forall w p s e, fst (LightningPayment.execute w p s) <> Throw e)
  /\ (forall w d p s e, fst (HederaHTLC.precheck w d p s) <> Throw e)
  /\ (forall w d p s e, fst (HederaHTLC.execute w d p s) <> Throw e)
  /\ (forall w p s e, fst (LightningInvoice.precheck w p s) <> Throw e)
  /\ (forall w p s e, fst (LightningInvoice.execute w p s) <> Throw e).
Proof.
  repeat split; intros;
    match goal with
    | |- fst (?f _ _ _) <> _ => unfold f
    | |- fst (?f _ _ _ _) <> _ => unfold f
    end;
    apply try_catch_handled; intros; eexists; eexists; reflexivity.
Qed.

End NoEscape.

(** ** The digest and [verifyPreimage] *)

Section DigestFormat.
Import Js SHA256.

Lemma be_bytes_bytes n x :
  List.length (be_bytes n x) = n /\ Forall is_byte (be_bytes n x).
Proof.
  induction n as [|n [IHl IHf]]; cbn [be_bytes]; [split; [reflexivity | constructor] |].
  split; [cbn; congruence |].
  constructor; [| exact IHf].
  unfold is_byte. change 255 with (Z.ones 8). rewrite Z.land_ones by lia.
  apply Z.mod_pos_bound. lia.
Qed.

Lemma blocks_length fuel :
  forall h bs, List.length h = 8%nat -> List.length (blocks fuel h bs) = 8%nat.
Proof.
  induction fuel as [|fuel IH]; intros h bs Hh; cbn [blocks]; [exact Hh |].
  destruct bs; [exact Hh |]. apply IH. reflexivity.
Qed.

Lemma digest_bytes msg :
  List.length (digest msg) = 32%nat /\ Forall is_byte (digest msg).
Proof.
  unfold digest.
  pose proof (blocks_length (List.length (pad msg)) H0 (pad msg) eq_refl) as Hl.
  destruct (blocks (List.length (pad msg)) H0 (pad msg))
    as [|a [|b [|c [|d [|e [|f [|g [|h [|i l]]]]]]]]]; try discriminate.
  cbn [List.flat_map]. rewrite !List.app_nil_r. split.
  - rewrite !List.length_app. rewrite !(proj1 (be_bytes_bytes 4 _)). reflexivity.
  - repeat (apply Forall_app; split); apply be_bytes_bytes.
Qed.

Lemma hex_digit_is_hex n : 0 <= n < 16 -> is_hex (hex_digit n) = true.
Proof.
  intros [Hlo Hhi]. destruct n as [|p|p]; [reflexivity | | lia].
  do 4 (try (destruct p as [p|p|]; try reflexivity)); lia.
Qed.

Lemma to_hex_is_hex bs :
  Forall is_byte bs ->
  String.length (to_hex bs) = (2 * List.length bs)%nat
  /\ Forall (fun c => is_hex c = true) (list_ascii_of_string (to_hex bs)).
Proof.
  induction 1 as [|b bs Hb _ [IHl IHf]]; cbn [to_hex]; [split; [reflexivity | constructor] |].
  unfold is_byte in Hb. split.
  - cbn [String.length List.length]. rewrite IHl. lia.
  - cbn [list_ascii_of_string].
    constructor; [apply hex_digit_is_hex; split;
                  [apply Z.div_pos; lia | apply Z.div_lt_upper_bound; lia] |].
    constructor; [apply hex_digit_is_hex; apply Z.mod_pos_bound; lia | exact IHf].
Qed.

(** The digest of anything is written with 64 hexadecimal characters. *)
Lemma sha256_hex_is_hex64 preimage : is_hex64 (sha256_hex preimage).
Proof.
  unfold sha256_hex, is_hex64.
  destruct (digest_bytes (from_hex preimage)) as [Hl Hf].
  destruct (to_hex_is_hex _ Hf) as [H1 H2].
  split; [rewrite H1, Hl; reflexivity | exact H2].
Qed.

(** X27. [verifyPreimage] has no false negative on well-formed preimages: it
    accepts a preimage together with its own SHA-256 digest exactly when the
    preimage is a 64-character hexadecimal string; and it is symmetric, so it
    accepts the pair the other way round as well. *)
Theorem verifyPreimage_accepts_genuine_pairs preimage :
  (LightningPayment.verifyPreimage preimage (sha256_hex preimage) = true <-> is_hex64 preimage)
  /\ (forall a b, LightningPayment.verifyPreimage a b = LightningPayment.verifyPreimage b a).
Proof.
  split.
  - pose proof (sha256_hex_is_hex64 preimage) as Hd.
    assert (Hdt : hex64_test (sha256_hex preimage) = true) by (apply hex64_test_spec; exact Hd).
    destruct Hd as [Hdl _].
    unfold LightningPayment.verifyPreimage. rewrite Hdl, Hdt. cbn [Nat.eqb negb orb].
    rewrite orb_false_r, andb_true_r. split.
    + destruct (negb (Nat.eqb (String.length preimage) 64)); [discriminate |].
      apply hex64_test_spec.
    + intros H. pose proof H as [Hl _]. rewrite Hl. cbn.
      apply hex64_test_spec. exact H.
  - intros a b. unfold LightningPayment.verifyPreimage.
    rewrite (orb_comm (negb (Nat.eqb (String.length a) 64))).
    rewrite (andb_comm (hex64_test a)). reflexivity.
Qed.

End DigestFormat.

(** ** The payment request pattern *)

Section PaymentRequestPattern.
Import Js LightningPayment.

Lemma strip_prefix_ci_app a b s :
  strip_prefix_ci (a ++ b) s =
  match strip_prefix_ci a s with
  | Some r => strip_prefix_ci b r
  | None => None
  end.
Proof.
  revert s. induction a as [|c a IH]; intros s; cbn; [reflexivity |].
  destruct s as [|x s]; [reflexivity |].
  destruct (Ascii.eqb (to_lower x) (to_lower c)); [apply IH | reflexivity].
Qed.

(** A character matched by a letter under the [i] flag is a letter. *)
Lemma ci_letter_alnum (c l : ascii) :
  is_lower l = true -> Ascii.eqb (to_lower c) (to_lower l) = true -> is_alnum_ci c = true.
Proof.
  intros Hl He. apply Ascii.eqb_eq in He.
  assert (Hll : to_lower l = l).
  { unfold to_lower. destruct (is_upper l) eqn:Hu; [| reflexivity].
    exfalso. revert Hl Hu.
    destruct l as [[] [] [] [] [] [] [] []]; cbn; discriminate. }
  rewrite Hll in He. subst l. revert Hl.
  destruct c as [[] [] [] [] [] [] [] []]; cbn; try discriminate; reflexivity.
Qed.

(** X28. The payment request pattern accepts exactly the strings made of
    [ln], then [bc] or [tb] (in any letter case), then at least one letter or
    digit and nothing else; the [bcrt] alternative of the pattern accepts
    nothing more. In particular the schema rejects the empty string and the
    bare prefixes. *)
Theorem paymentRequest_pattern s :
  paymentRequest_test s = true <->
  exists r,
    (strip_prefix_ci "lnbc" s = Some r \/ strip_prefix_ci "lntb" s = Some r)
    /\ r <> "" /\ all_chars is_alnum_ci r = true.
Proof.
  unfold paymentRequest_test.
  change "lnbc" with ("ln" ++ "bc")%string. change "lntb" with ("ln" ++ "tb")%string.
  rewrite !strip_prefix_ci_app.
  destruct (strip_prefix_ci "ln" s) as [r0|].
  2:{ split; [discriminate | intros [r [[H | H] _]]; discriminate]. }
  cbn [List.existsb]. rewrite orb_false_r.
  assert (Hplus : forall r, match_plus_end is_alnum_ci r = true <->
                            r <> "" /\ all_chars is_alnum_ci r = true).
  { intros r. destruct r; cbn [match_plus_end]; split.
    - discriminate.
    - intros [H _]. contradiction.
    - intros H. split; [discriminate | exact H].
    - intros [_ H]. exact H. }
  assert (Hrt : strip_prefix_ci "bcrt" r0 =
                match strip_prefix_ci "bc" r0 with
                | Some r => strip_prefix_ci "rt" r
                | None => None
                end).
  { change "bcrt" with ("bc" ++ "rt")%string. apply strip_prefix_ci_app. }
  rewrite Hrt. split.
  - intros H. apply orb_true_iff in H. destruct H as [H | H];
      [| apply orb_true_iff in H; destruct H as [H | H]].
    + destruct (strip_prefix_ci "bc" r0) as [r|]; [| discriminate].
      exists r. split; [left; reflexivity | apply Hplus; exact H].
    + destruct (strip_prefix_ci "tb" r0) as [r|]; [| discriminate].
      exists r. split; [right; reflexivity | apply Hplus; exact H].
    + destruct (strip_prefix_ci "bc" r0) as [r|]; [| discriminate].
      exists r. split; [left; reflexivity |].
      destruct r as [|x [|y r']]; cbn [strip_prefix_ci] in H; try discriminate.
      * destruct (Ascii.eqb (to_lower x) (to_lower "r")); discriminate.
      * destruct (Ascii.eqb (to_lower x) (to_lower "r")) eqn:Hx; [| discriminate].
        destruct (Ascii.eqb (to_lower y) (to_lower "t")) eqn:Hy; [| discriminate].
        apply Hplus in H. destruct H as [_ H].
        split; [discriminate |]. cbn [all_chars].
        rewrite (ci_letter_alnum x "r" eq_refl Hx), (ci_letter_alnum y "t" eq_refl Hy).
        exact H.
  - intros [r [[H | H] Hr]]; apply Hplus in Hr; apply orb_true_iff.
    + left. rewrite H. exact Hr.
    + right. apply orb_true_iff. left. rewrite H. exact Hr.
Qed.

End PaymentRequestPattern.

(** ** The further properties on concrete runs *)

Section PaymentWitnesses.
Import Js LightningPayment ConnectionManager Examples Sample MoreSamples.

Lemma connect_reuses_client_witness :
  connect (pay_world_with (invoice None) unreachable Pending Pending 0) (Some "other") connected
  = (Ret tt, connected).
Proof.
  apply (connect_reuses_client (pay_world (invoice None) Pending 0) (Some uri) fresh).
  - vm_compute. reflexivity.
  - reflexivity.
Defined.

Lemma connect_requires_descriptor_witness :
  connect (pay_world (invoice None) Pending 0) (Some "") connected =
  (Throw (ErrorObj
            "NWC URI not provided. Set NWC_URI environment variable or provide in ability params."),
   connected).
Proof. apply connect_requires_descriptor; reflexivity. Defined.

Lemma failed_connect_blocks_wallet_witness :
  manager_payInvoice (pay_world_with (invoice None) unreachable Pending Pending 0) pr
    (mkSt (mkManager false false None) [NewClient uri]) =
  (Throw (ErrorObj not_connected), mkSt (mkManager false false None) [NewClient uri]).
Proof.
  apply (failed_connect_blocks_wallet
           (pay_world_with (invoice None) unreachable Pending Pending 0) (Some uri) fresh
           (ErrorObj "NWC connection failed: relay unreachable")).
  - reflexivity.
  - vm_compute. reflexivity.
Defined.

Lemma close_then_connect_witness :
  close None connected = (Ret tt, mkSt (mkManager true false None) [NewClient uri; GetInfo])
  /\ close unreachable connected = (Ret tt, connected).
Proof.
  split.
  - apply (proj1 (proj2 (close_then_connect (pay_world (invoice None) Pending 0)
                           (Some uri) connected None)));
      reflexivity.
  - apply (proj2 (proj2 (close_then_connect (pay_world (invoice None) Pending 0)
                           (Some uri) connected unreachable))).
    right. discriminate.
Defined.

Lemma precheck_success_reports_invoice_witness :
  exists inv,
    decode (pay_world (invoice (Some 1800000000000)) Pending 0) pr = inr inv
    /\ inv_paymentHash inv = b64.
Proof.
  destruct (precheck_success_reports_invoice
              (pay_world (invoice (Some 1800000000000)) Pending 0)
              (params (Some 60) (Some 150)) fresh
              (mkPrecheckSuccess true b64 150 "unknown" "swap" 1800000000000
                 (Some 1000) (Some 1))
              (mkSt (mkManager true true None) [NewClient uri; GetInfo; GetBalance]))
    as [inv [Hd [_ [Hh _]]]].
  - vm_compute. reflexivity.
  - exists inv. split; [exact Hd | symmetry; exact Hh].
Defined.

Lemma precheck_never_pays_witness :
  List.filter is_payment [NewClient uri; GetInfo; GetBalance] = List.filter is_payment [].
Proof.
  apply (precheck_never_pays (pay_world (invoice (Some 1800000000000)) Pending 0)
           (params (Some 60) (Some 150)) fresh
           (mkSt (mkManager true true None) [NewClient uri; GetInfo; GetBalance])).
  vm_compute. reflexivity.
Defined.

Lemma precheck_liquidity_best_effort_witness :
  fst (precheck (pay_world_with (invoice None) unreachable Pending Pending 0)
                (params (Some 60) None) fresh) =
  Ret (Succeed (mkPrecheckSuccess true b64 150 "unknown" "swap" 0 None (Some 1)))
  /\ exists msg,
      fst (precheck (pay_world_with (invoice None) None (Ret (Some 100)) Pending 0)
                    (params (Some 60) None) fresh) =
      Ret (Fail (mkPrecheckFail msg INSUFFICIENT_LIQUIDITY)).
Proof.
  split.
  - apply (proj1 (precheck_liquidity_best_effort
                    (pay_world_with (invoice None) unreachable Pending Pending 0)
                    (params (Some 60) None) fresh (invoice None)
                    eq_refl (or_introl eq_refl) ltac:(discriminate) (or_introl eq_refl))).
    left. eexists. vm_compute. reflexivity.
  - apply (proj2 (precheck_liquidity_best_effort
                    (pay_world_with (invoice None) None (Ret (Some 100)) Pending 0)
                    (params (Some 60) None) fresh (invoice None)
                    eq_refl (or_introl eq_refl) ltac:(discriminate) (or_introl eq_refl))
             (mkSt (mkManager true true None) [NewClient uri; GetInfo]) 100).
    + vm_compute. reflexivity.
    + vm_compute. reflexivity.
    + cbn. lia.
Defined.

Lemma precheck_rejects_amountless_invoice_witness :
  (exists msg,
      precheck (pay_world amountless Pending 0) (params (Some 60) (Some 150)) fresh =
      (Ret (Fail (mkPrecheckFail msg AMOUNT_MISMATCH)), fresh))
  /\ (exists msg,
         precheck (pay_world amountless Pending 0) (params (Some 60) None) fresh =
         (Ret (Fail (mkPrecheckFail msg INVALID_INVOICE)), fresh)).
Proof.
  split.
  - apply (proj2 (precheck_rejects_amountless_invoice (pay_world amountless Pending 0)
                    (params (Some 60) (Some 150)) fresh amountless eq_refl eq_refl)).
    left. reflexivity.
  - apply (proj2 (precheck_rejects_amountless_invoice (pay_world amountless Pending 0)
                    (params (Some 60) None) fresh amountless eq_refl eq_refl)).
    left. reflexivity.
Defined.

Lemma execute_failure_payload_witness :
  ef_paymentHash (mkExecuteFail "Payment execution failed: no route" PAYMENT_FAILED (Some b64))
  = match decode (pay_world (invoice None) (Throw (ErrorObj "no route")) 10) pr with
    | inr inv => Some (inv_paymentHash inv)
    | inl _ => None
    end.
Proof.
  apply (execute_failure_payload
           (pay_world (invoice None) (Throw (ErrorObj "no route")) 10)
           (params (Some 60) None) fresh
           (mkExecuteFail "Payment execution failed: no route" PAYMENT_FAILED (Some b64))
           (mkSt (mkManager true true None)
                 [NewClient uri; GetInfo; PayInvoice pr; SetTimeout 60000])).
  vm_compute. reflexivity.
Defined.

Lemma execute_success_payload_witness :
  exists inv,
    decode (pay_world (invoice None) (Ret (Some a64)) 10) pr = inr inv
    /\ payInvoice (pay_world (invoice None) (Ret (Some a64)) 10) pr = Ret (Some a64).
Proof.
  destruct (execute_success_payload
              (pay_world (invoice None) (Ret (Some a64)) 10) (params (Some 60) None) fresh
              (mkExecuteSuccess a64 b64 150 0 150 1700000002000 SUCCEEDED)
              (mkSt (mkManager true true None)
                    [NewClient uri; GetInfo; PayInvoice pr; SetTimeout 60000]))
    as [inv [Hd [Hp _]]].
  - vm_compute. reflexivity.
  - exists inv. split; [exact Hd | exact Hp].
Defined.

Lemma execute_ignores_fee_and_amount_limits_witness :
  execute (pay_world (invoice None) (Ret (Some a64)) 10)
          (mkAbilityParams pr (Some 1) (Some 60) (Some uri) (Some 999)) fresh =
  execute (pay_world (invoice None) (Ret (Some a64)) 10) (params (Some 60) None) fresh.
Proof. apply execute_ignores_fee_and_amount_limits; reflexivity. Defined.


Lemma calculateMaxFee_bounds_witness :
  10 <= calculateMaxFee 150 <= 1000 /\ calculateMaxFee 98901 = 1000.
Proof.
  split.
  - apply (calculateMaxFee_bounds 150). lia.
  - apply (calculateMaxFee_bounds 98901); lia.
Defined.

Lemma verifyPreimage_accepts_genuine_pairs_witness :
  verifyPreimage a64 (SHA256.sha256_hex a64) = true.
Proof.
  apply (proj1 (verifyPreimage_accepts_genuine_pairs a64)).
  apply hex64_test_spec. vm_compute. reflexivity.
Defined.

Lemma paymentRequest_pattern_witness :
  paymentRequest_test "lnbcrt1" = true.
Proof.
  apply (proj2 (paymentRequest_pattern "lnbcrt1")).
  exists "rt1". split; [left; reflexivity | split; [discriminate | reflexivity]].
Defined.

End PaymentWitnesses.

Section LockWitnesses.
Import Js HederaHTLC Sample MoreSamples.

Lemma getHederaNetwork_known_chains_witness :
  exists msg,
    getHederaNetwork 1 = inl (ErrorObj msg)
    /\ String.prefix "Unsupported Hedera chain ID: " msg = true
    /\ (isSafeInteger 1 -> msg = "Unsupported Hedera chain ID: 1").
Proof. apply (proj2 (getHederaNetwork_known_chains 1)); discriminate. Defined.

Lemma lock_precheck_success_witness :
  now_seconds (ledger_with 2000000000000000000 5 None) < timelock (lock_params 1800000000 296)
  /\ ps_hasBalance (mkPrecheckSuccess false true "2000000000000000000" "100000") = true.
Proof.
  destruct (lock_precheck_success (ledger_with 2000000000000000000 5 None) pkp
              (lock_params 1800000000 296) []
              (mkPrecheckSuccess false true "2000000000000000000" "100000")
              [BalanceOf token (ethAddress pkp);
               Allowance token (ethAddress pkp) htlc;
               EstimateGasCreate htlc
                 (mkCreateArgs hash32 1800000000 token "1000000000000000000") (ethAddress pkp)])
    as [_ [_ [Ht [Hb _]]]].
  - vm_compute. reflexivity.
  - split; [exact Ht | exact Hb].
Defined.

Lemma lock_precheck_balance_and_allowance_witness :
  precheck (ledger_with 5 0 None) pkp (lock_params 1800000000 296) [] =
  (Ret (Fail (mkFailure "Insufficient token balance. Have: 5, Need: 1000000000000000000"
                INSUFFICIENT_BALANCE)),
   [BalanceOf token (ethAddress pkp)])
  /\ fst (precheck (ledger_with 2000000000000000000 5 None) pkp (lock_params 1800000000 296) [])
     = Ret (Succeed (mkPrecheckSuccess false true "2000000000000000000" "100000")).
Proof.
  assert (Hc : chainId (lock_params 1800000000 296) = 295 \/
               chainId (lock_params 1800000000 296) = 296 \/
               chainId (lock_params 1800000000 296) = 297) by (right; left; reflexivity).
  assert (Ht : forall b a, now_seconds (ledger_with b a None)
                           < timelock (lock_params 1800000000 296)) by (intros; cbn; lia).
  split.
  - apply (proj1 (lock_precheck_balance_and_allowance (ledger_with 5 0 None) pkp
                    (lock_params 1800000000 296) [] 5 1000000000000000000
                    Hc eq_refl (Ht _ _) eq_refl eq_refl)).
    lia.
  - apply (proj2 (lock_precheck_balance_and_allowance
                    (ledger_with 2000000000000000000 5 None) pkp
                    (lock_params 1800000000 296) [] 2000000000000000000 1000000000000000000
                    Hc eq_refl (Ht _ _) eq_refl eq_refl) 5 100000).
    + lia.
    + reflexivity.
    + reflexivity.
    + lia.
Defined.

Lemma lock_failure_reasons_witness :
  f_reason (mkFailure "execution reverted" CONTRACT_ERROR) = CONTRACT_ERROR
  \/ f_reason (mkFailure "execution reverted" CONTRACT_ERROR) = INVALID_PAYMENT_HASH
  \/ f_reason (mkFailure "execution reverted" CONTRACT_ERROR) = INVALID_TIMELOCK
  \/ f_reason (mkFailure "execution reverted" CONTRACT_ERROR) = INSUFFICIENT_BALANCE.
Proof.
  apply (proj1 (lock_failure_reasons reverting_ledger pkp (lock_params 1800000000 296) []
                  (mkFailure "execution reverted" CONTRACT_ERROR))).
  vm_compute. reflexivity.
Defined.

Lemma lock_execute_submits_only_after_preparation_witness :
  exists data nonce gasPrice gas,
    encodeFunctionData (ledger symbolic_keccak [])
      (mkCreateArgs hash32 1800000000 token "1000000000000000000") = inr data
    /\ getTransactionCount (ledger symbolic_keccak []) (ethAddress pkp) = Ret nonce
    /\ getGasPrice (ledger symbolic_keccak []) = Ret gasPrice
    /\ estimateGas (ledger symbolic_keccak []) (ethAddress pkp) htlc data = Ret gas.
Proof.
  apply (lock_execute_submits_only_after_preparation (ledger symbolic_keccak []) pkp
           (lock_params 1800000000 296) []).
  - reflexivity.
  - vm_compute. reflexivity.
Defined.

Lemma lock_execute_success_witness :
  es_timelock (mkExecuteSuccess (ledger_contractId 1800000000 1700000000)
                 "0xtxhash123456789" hash32 "1000000000000000000" 1800000000 12345)
  = timelock (lock_params 1800000000 296).
Proof.
  apply (lock_execute_success (ledger symbolic_keccak []) pkp (lock_params 1800000000 296) []
           (mkExecuteSuccess (ledger_contractId 1800000000 1700000000)
              "0xtxhash123456789" hash32 "1000000000000000000" 1800000000 12345)
           ([] ++ lock_execute_log pkp (lock_params 1800000000 296) "0xdata"
                    "0xtxhash123456789")).
  vm_compute. reflexivity.
Defined.

Lemma lock_execute_failed_receipt_witness :
  execute (ledger_with 2000000000000000000 5 (Some (mkReceipt 0 12345 []))) pkp
          (lock_params 1800000000 296) [] =
  (Ret (Fail (mkFailure "Transaction failed on-chain" TRANSACTION_FAILED)),
   [] ++ lock_execute_log pkp (lock_params 1800000000 296) "0xdata" "0xtxhash123456789").
Proof.
  apply (lock_execute_failed_receipt
           (ledger_with 2000000000000000000 5 (Some (mkReceipt 0 12345 []))) pkp
           (lock_params 1800000000 296) [] "0xdata" 0 1000000000 100000 "0xtxhash123456789"
           (ledger_contractId 1800000000 1700000000) (Some (mkReceipt 0 12345 [])));
    reflexivity.
Defined.

Lemma lock_precheck_hash_format_witness :
  precheck (ledger symbolic_keccak []) pkp (lock_params_hash a64) [] =
  (Ret (Fail (mkFailure "Payment hash must be a 32-byte hex string (0x...)"
                INVALID_PAYMENT_HASH)), []).
Proof.
  apply (proj1 (lock_precheck_hash_format (ledger symbolic_keccak []) pkp
                  (lock_params_hash a64) [] a64
                  ltac:(apply hex64_test_spec; vm_compute; reflexivity)
                  (or_intror (or_introl eq_refl)))).
  reflexivity.
Defined.

End LockWitnesses.

Section InvoiceWitnesses.
Import Js LightningInvoice Sample MoreSamples.

Lemma invoice_execute_success_witness :
  es_expiresAt (mkExecuteSuccess "lnbc10u1address" a64 1000
                  "HLV Protocol rebalance: 1000 sats" 1700003600)
  = now_ms address_wallet / 1000 + expirySec (invoice_params 1000 3600 good_uri).
Proof.
  apply (invoice_execute_success address_wallet (invoice_params 1000 3600 good_uri) []
           (mkExecuteSuccess "lnbc10u1address" a64 1000
              "HLV Protocol rebalance: 1000 sats" 1700003600)
           [NewClient good_uri; GetInfo; LnFetch "user@getalby.com";
            RequestInvoice "user@getalby.com" 1000 "HLV Protocol rebalance: 1000 sats"]).
  - vm_compute. discriminate.
  - vm_compute. discriminate.
  - vm_compute. discriminate.
  - vm_compute. reflexivity.
Defined.

Lemma invoice_precheck_after_schema_witness :
  precheck wallet (mkAbilityParams 1000 None 30 good_uri) [] =
  (Ret (Fail (mkFailure "Expiry must be at least 60 seconds" INVALID_AMOUNT)), [])
  /\ precheck wallet (mkAbilityParams 1000 None 86400 good_uri) [] =
     (Ret (Succeed (mkPrecheckSuccess 1000 true 0)), []).
Proof.
  split.
  - apply (proj1 (proj2 (invoice_precheck_after_schema wallet
                           (invoice_raw 1000 (Some 30) good_uri)
                           (mkAbilityParams 1000 None 30 good_uri) [] eq_refl))).
    + reflexivity.
    + cbn. lia.
  - apply (proj2 (proj2 (invoice_precheck_after_schema wallet
                           (invoice_raw 1000 None good_uri)
                           (mkAbilityParams 1000 None 86400 good_uri) [] eq_refl))).
    + reflexivity.
    + reflexivity.
Defined.

End InvoiceWitnesses.
